(** * just-in-time: dispatch scheduler and timestamp reconciler

    A shallow embedding of
    - [crates/dispatch/examples/simple-orchestrator.py] (module [Orchestrator]),
    - [scripts/migrate_timestamps.py] (module [Migrate]),
    - [scripts/fix_timestamps.py] (module [Fix]),
    and the properties of the specification checked against them. *)

From Stdlib Require Import ZArith Lia.
From stdpp Require Import base option list gmap strings sorting.

(** ** Python values *)

(** The timestamp scripts work on dictionaries decoded from JSON.  The
    entries they inspect (identifiers, event kinds, timestamps) are scalars;
    an entry of an issue record or of an event is modelled as one of the
    JSON scalars [null], a boolean, an integer or a string.  The
    orchestrator and the event log reader work on whole JSON values, arrays
    and objects included; those are the type [json] below.  Floating-point
    numbers are outside the model. *)
Module Py.

Inductive value : Type :=
  | VNone
  | VBool (b : bool)
  | VInt (n : Z)
  | VStr (s : string).

#[global] Instance value_eq_dec : EqDecision value.
Proof. solve_decision. Defined.

(** [bool(v)]: what [if v] and [not v] test. *)
Definition truthy (v : value) : bool :=
  match v with
  | VNone => false
  | VBool b => b
  | VInt n => negb (n =? 0)%Z
  | VStr s => match s with EmptyString => false | String _ _ => true end
  end.

Definition int_of_bool (b : bool) : Z := if b then 1%Z else 0%Z.

(** [a == b]: booleans compare as the integers 0 and 1. *)
Definition py_eq (a b : value) : bool :=
  match a, b with
  | VNone, VNone => true
  | VBool x, VBool y => (int_of_bool x =? int_of_bool y)%Z
  | VBool x, VInt n => (int_of_bool x =? n)%Z
  | VInt n, VBool y => (n =? int_of_bool y)%Z
  | VInt n, VInt m => (n =? m)%Z
  | VStr s, VStr t => bool_decide (s = t)
  | _, _ => false
  end.

(** A dictionary with string keys. *)
Abbreviation dict := (gmap string value).

(** [d.get(k)]: [None] when the key is absent. *)
Definition get (d : dict) (k : string) : value := default VNone (d !! k).

(** [d.get(k, dflt)]. *)
Definition get_or (d : dict) (k : string) (dflt : value) : value :=
  default dflt (d !! k).

(** [k in d]. *)
Definition contains (d : dict) (k : string) : bool := bool_decide (is_Some (d !! k)).

(** Exceptions that escape the modelled functions. *)
Inductive exn : Type :=
  | KeyError (key : string)
  | TypeError
  | FileNotFoundError (path : string)
  | AttributeError
  | ValueError.

Inductive outcome (A : Type) : Type :=
  | Returned (a : A)
  | Raised (e : exn).
Arguments Returned {A} a.
Arguments Raised {A} e.

#[global] Instance exn_eq_dec : EqDecision exn.
Proof. solve_decision. Defined.

#[global] Instance outcome_eq_dec {A} `{EqDecision A} : EqDecision (outcome A).
Proof. solve_decision. Defined.

(** [v[:8]] as used in the progress lines: defined on strings only. *)
Definition slice8 (v : value) : outcome string :=
  match v with
  | VStr s => Returned (String.substring 0 8 s)
  | _ => Raised TypeError
  end.

End Py.
Import Py.

(** ** JSON values *)

(** What [json.loads] returns: a scalar, an array, or an object with its
    members in the order of the text. *)
#[warnings="-register-all"]
Inductive json : Type :=
  | JScalar (v : value)
  | JArray (items : list json)
  | JObject (members : list (string * json)).

(** The value an object has under a key, as the decoded [dict] has it: of a
    key written twice the last value counts. *)
Fixpoint entry (members : list (string * json)) (k : string) : option json :=
  match members with
  | [] => None
  | (k', v) :: rest =>
      match entry rest k with
      | Some v' => Some v'
      | None => if bool_decide (k' = k) then Some v else None
      end
  end.

(** [bool(j)]: an array or an object is true unless it is empty. *)
Definition json_truthy (j : json) : bool :=
  match j with
  | JScalar v => truthy v
  | JArray [] => false
  | JArray (_ :: _) => true
  | JObject [] => false
  | JObject (_ :: _) => true
  end.

(** ** Stable sort by an integer key *)

(** [list.sort(key=...)] is a stable sort.  A stable sort by a key has one
    possible result, so it is modelled by insertion sort: each element is
    put in front of the first element of the sorted rest whose key is not
    smaller. *)
Section sort_by_key.
Context {A : Type} (key : A → Z).

Fixpoint insert_by_key (x : A) (l : list A) : list A :=
  match l with
  | [] => [x]
  | y :: l' =>
      if (key x <=? key y)%Z then x :: y :: l'
      else y :: insert_by_key x l'
  end.

Fixpoint sort_by_key (l : list A) : list A :=
  match l with
  | [] => []
  | x :: l' => insert_by_key x (sort_by_key l')
  end.

Definition key_le (x y : A) : Prop := (key x ≤ key y)%Z.

End sort_by_key.

(** ** simple-orchestrator.py *)

Module Orchestrator.

(** [@dataclass class Agent]. *)
Record Agent : Type := mkAgent {
  id : string;
  max_concurrent : Z;
  current_load : Z
}.

(** The lines the orchestrator prints. *)
Inductive message : Type :=
  | ErrorQuerying
  | FailedToClaim (issue_id agent_id : string)
  | Assigned (issue_id agent_id : string).

(** What [subprocess.run(["jit", "query", "ready", "--json"], check=True)]
    followed by [json.loads(result.stdout)] comes to: the process exits with
    a non-zero status; its output is not JSON; its output decodes to the
    value [data]; or [subprocess.run] raises another exception, as
    [FileNotFoundError] when the command cannot be started. *)
Inductive query_reply : Type :=
  | CalledProcessError
  | JSONDecodeError
  | Data (data : json)
  | QueryRaised (e : exn).

(** What [subprocess.run(["jit", "issue", "claim", issue_id, agent_id],
    check=True)] comes to: the process exits with status 0; it exits with a
    non-zero status ([CalledProcessError]); or [subprocess.run] raises
    another exception, as [ValueError] on a NUL character in an argument or
    [FileNotFoundError] when the command cannot be started. *)
Inductive claim_reply : Type :=
  | Claimed
  | ClaimRefused
  | ClaimRaised (e : exn).

#[global] Instance claim_reply_eq_dec : EqDecision claim_reply.
Proof. solve_decision. Defined.

(** [priority_order] of [dispatch_cycle]. *)
Definition priority_order : gmap string Z :=
  <["critical" := 0%Z]> (<["high" := 1%Z]> (<["normal" := 2%Z]> (<["low" := 3%Z]> ∅))).

(** [priority_order.get(p, 4)]: the keys are strings, so only a string can
    be found; an array or an object cannot be hashed. *)
Definition priority_rank (p : json) : outcome Z :=
  match p with
  | JScalar (VStr s) => Returned (default 4%Z (priority_order !! s))
  | JScalar _ => Returned 4%Z
  | JArray _ | JObject _ => Raised TypeError
  end.

(** The sort key [lambda i: priority_order.get(i.get("priority", "normal"), 4)];
    only a [dict] has [get]. *)
Definition sort_key (i : json) : outcome Z :=
  match i with
  | JObject members =>
      priority_rank (default (JScalar (VStr "normal")) (entry members "priority"))
  | _ => Raised AttributeError
  end.

(** The keys of the issues, computed in the order of the list before any
    issue is moved; the first key that raises ends the sort. *)
Fixpoint sort_keys (ready_issues : list json) : outcome (list (Z * json)) :=
  match ready_issues with
  | [] => Returned []
  | i :: rest =>
      match sort_key i with
      | Raised e => Raised e
      | Returned k =>
          match sort_keys rest with
          | Raised e => Raised e
          | Returned keyed => Returned ((k, i) :: keyed)
          end
      end
  end.

(** [ready_issues.sort(key=...)]. *)
Definition sort_by_priority (ready_issues : list json) : outcome (list json) :=
  match sort_keys ready_issues with
  | Raised e => Raised e
  | Returned keyed => Returned (sort_by_key fst keyed).*2
  end.

(** [get_available_agent]: the first agent of the pool with spare capacity,
    with its position in [self.agents] (the caller updates that object). *)
Definition get_available_agent (agents : list Agent) : option (nat * Agent) :=
  list_find (λ agent, (current_load agent < max_concurrent agent)%Z) agents.

(** [agent.current_load += 1] on the agent at position [i]. *)
Definition increment_load (i : nat) (agent : Agent) (agents : list Agent) : list Agent :=
  <[i := mkAgent (id agent) (max_concurrent agent) (current_load agent + 1)]> agents.

(** The result of a cycle: the issue store and the pool as the cycle leaves
    them, the lines printed, and the count returned or the exception. *)
Record cycle (World : Type) : Type := mkCycle {
  world : World;
  pool : list Agent;
  printed : list message;
  result : outcome Z
}.
Arguments mkCycle {World} _ _ _ _.
Arguments world {World} _.
Arguments pool {World} _.
Arguments printed {World} _.
Arguments result {World} _.

Section store.
(** The issue store behind the [jit] command: a state, and what the ready
    query and a claim come to in that state. *)
Context {World : Type}.
Context (jit_query_ready : World → World * query_reply).
Context (jit_issue_claim : string → string → World → World * claim_reply).

(** [query_ready_issues]: [data.get("issues", [])] needs a [dict]. *)
Definition query_ready_issues (w : World) : World * list message * outcome json :=
  let '(w', reply) := jit_query_ready w in
  match reply with
  | Data (JObject members) =>
      (w', [], Returned (default (JArray []) (entry members "issues")))
  | Data _ => (w', [], Raised AttributeError)
  | CalledProcessError | JSONDecodeError => (w', [ErrorQuerying], Returned (JArray []))
  | QueryRaised e => (w', [], Raised e)
  end.

Definition claim_issue (issue_id agent_id : string) (w : World)
    : World * list message * outcome bool :=
  let '(w', reply) := jit_issue_claim issue_id agent_id w in
  match reply with
  | Claimed => (w', [], Returned true)
  | ClaimRefused => (w', [FailedToClaim issue_id agent_id], Returned false)
  | ClaimRaised e => (w', [], Raised e)
  end.

(** The [for issue in ready_issues] loop of [dispatch_cycle].  [issue["id"]]
    needs a [dict] that has the key, and the command line needs a string. *)
Fixpoint dispatch_loop (ready_issues : list json) (w : World) (agents : list Agent)
    (out : list message) (assignments : Z) : cycle World :=
  match ready_issues with
  | [] => mkCycle w agents out (Returned assignments)
  | issue :: rest =>
      match get_available_agent agents with
      | None => mkCycle w agents out (Returned assignments)
      | Some (i, agent) =>
          match issue with
          | JObject members =>
              match entry members "id" with
              | None => mkCycle w agents out (Raised (KeyError "id"))
              | Some (JScalar (VStr issue_id)) =>
                  let agent_id_full := ("agent:" +:+ id agent) in
                  let '(w', out', claimed) := claim_issue issue_id agent_id_full w in
                  match claimed with
                  | Returned true =>
                      dispatch_loop rest w' (increment_load i agent agents)
                        (out ++ out' ++ [Assigned issue_id (id agent)]) (assignments + 1)
                  | Returned false => dispatch_loop rest w' agents (out ++ out') assignments
                  | Raised e => mkCycle w' agents (out ++ out') (Raised e)
                  end
              | Some _ => mkCycle w agents out (Raised TypeError)
              end
          | _ => mkCycle w agents out (Raised TypeError)
          end
      end
  end.

(** [dispatch_cycle]: only a list has [sort]. *)
Definition dispatch_cycle (w : World) (agents : list Agent) : cycle World :=
  let '(w', out, queried) := query_ready_issues w in
  match queried with
  | Raised e => mkCycle w' agents out (Raised e)
  | Returned ready_issues =>
      if negb (json_truthy ready_issues) then mkCycle w' agents out (Returned 0%Z)
      else
        match ready_issues with
        | JArray items =>
            match sort_by_priority items with
            | Raised e => mkCycle w' agents out (Raised e)
            | Returned ranked => dispatch_loop ranked w' agents out 0%Z
            end
        | _ => mkCycle w' agents out (Raised AttributeError)
        end
  end.

(** The ready issues the query has returned, when it has returned a list. *)
Definition ready_issues (w : World) : list json :=
  match (query_ready_issues w).2 with
  | Returned (JArray items) => items
  | _ => []
  end.

End store.

(** [0 ≤ current_load ≤ max_concurrent]. *)
Definition within_capacity (agent : Agent) : Prop :=
  (0 ≤ current_load agent ≤ max_concurrent agent)%Z.

(** The sum over the pool of [max_concurrent − current_load]. *)
Definition spare_capacity (agents : list Agent) : Z :=
  foldr (λ agent acc, (max_concurrent agent - current_load agent + acc)%Z) 0%Z agents.

(** An issue the sort can rank: a [dict] whose priority, if it has one, is a
    scalar. *)
Definition rankable (issue : json) : Prop :=
  ∃ members, issue = JObject members ∧
    (entry members "priority" = None ∨ ∃ v, entry members "priority" = Some (JScalar v)).

(** An issue the claim command can be run on: a [dict] whose [id] is a
    string. *)
Definition has_string_id (issue : json) : Prop :=
  ∃ members s, issue = JObject members ∧ entry members "id" = Some (JScalar (VStr s)).

(** The order of the ranks of two issues. *)
Definition rank_le (a b : json) : Prop :=
  ∃ ka kb, sort_key a = Returned ka ∧ sort_key b = Returned kb ∧ (ka ≤ kb)%Z.

(** An issue store that answers from a script: one reply to the ready
    query, and the outcomes of the claims in the order they are made, [true]
    for a claim that succeeds and [false] for one the store refuses. *)
Record scripted : Type := mkScripted {
  ready_reply : query_reply;
  claim_replies : list bool
}.

Definition scripted_query (w : scripted) : scripted * query_reply :=
  (w, ready_reply w).

Definition scripted_claim (issue_id agent_id : string) (w : scripted)
    : scripted * claim_reply :=
  match claim_replies w with
  | [] => (w, ClaimRefused)
  | ok :: rest => (mkScripted (ready_reply w) rest, if ok then Claimed else ClaimRefused)
  end.

(** An issue store with a journal: beside its state it keeps the claim
    commands it was sent, each with the way it ended, in the order they
    came. *)
Abbreviation journal := (list (string * string * claim_reply)).

Section journalled.
Context {World : Type}.
Context (jit_query_ready : World → World * query_reply).
Context (jit_issue_claim : string → string → World → World * claim_reply).

Definition journalled_query (s : World * journal) : (World * journal) * query_reply :=
  let '(w', reply) := jit_query_ready s.1 in ((w', s.2), reply).

Definition journalled_claim (issue_id agent_id : string) (s : World * journal)
    : (World * journal) * claim_reply :=
  let '(w', reply) := jit_issue_claim issue_id agent_id s.1 in
  ((w', s.2 ++ [(issue_id, agent_id, reply)]), reply).

End journalled.

(** The claims of a journal that the store accepted, and the issues the
    claim commands of a journal were for. *)
Definition accepted (j : journal) : journal :=
  List.filter (λ c, bool_decide (c.2 = Claimed)) j.

Definition claimed_ids (j : journal) : list string := (λ c, c.1.1) <$> j.

(** The [id] of an issue when it is a string. *)
Definition string_id (issue : json) : option string :=
  match issue with
  | JObject members =>
      match entry members "id" with
      | Some (JScalar (VStr s)) => Some s
      | _ => None
      end
  | _ => None
  end.

End Orchestrator.

(** ** What the two timestamp scripts share *)

Module Script.

(** The lines the scripts print (warnings go to the standard error). *)
Inductive message : Type :=
  | WarnParseEvent
  | WarnNoId
  | UsingMtime (short : string)
  | WouldAdd (short : string) (created_at updated_at : value)
  | Added (short : string)
  | NoTimestamps (short : string)
  | NoEventsFound (short : string)
  | EventsMissingTimestamps (short : string)
  | WouldUpdate (short : string) (first_timestamp old_created last_timestamp old_updated : value)
  | Fixed (short : string) (first_timestamp last_timestamp : value).

(** What one call on an issue file does: the dictionary it writes back to
    the file, if it writes, the lines it prints, and the value it returns or
    the exception that escapes it. *)
Record run : Type := mkRun {
  written : option dict;
  printed : list message;
  result : outcome bool
}.

(** An issue file: the decoded dictionary and the modification time as
    [get_file_mtime_rfc3339] renders it. *)
Record file : Type := mkFile {
  content : dict;
  mtime : string
}.

Section load_events.
(** [str.strip] and [json.loads] ([None] for a [JSONDecodeError]); a line
    may decode to any JSON value. *)
Context (strip : string → string) (json_loads : string → option json).

(** The [for line in f] loop of [load_events]. *)
Fixpoint read_lines (lines : list string) (events : list json) (out : list message)
    : list json * list message :=
  match lines with
  | [] => (events, out)
  | line :: rest =>
      let line := strip line in
      if truthy (VStr line) then
        match json_loads line with
        | Some e => read_lines rest (events ++ [e]) out
        | None => read_lines rest events (out ++ [WarnParseEvent])
        end
      else read_lines rest events out
  end.

(** [load_events]; [events_file] is [None] when the file does not exist. *)
Definition load_events (events_file : option (list string)) : list json * list message :=
  match events_file with
  | None => ([], [])
  | Some lines => read_lines lines [] []
  end.

End load_events.

(** [[e for e in events if e.get('issue_id') == issue_id]]. *)
Definition events_of (issue_id : value) (events : list dict) : list dict :=
  List.filter (λ e, py_eq (get e "issue_id") issue_id) events.

(** The same comprehension on the log as [load_events] returns it, where a
    line may have decoded to any JSON value: [e.get] needs a [dict], and the
    first event that is none ends the comprehension; an entry that is an
    array or an object is not equal to an identifier. *)
Definition event_get (e : json) (k : string) : outcome json :=
  match e with
  | JObject members => Returned (default (JScalar VNone) (entry members k))
  | _ => Raised AttributeError
  end.

Definition json_eq_value (j : json) (v : value) : bool :=
  match j with
  | JScalar u => py_eq u v
  | _ => false
  end.

Fixpoint events_of_log (issue_id : value) (events : list json) : outcome (list json) :=
  match events with
  | [] => Returned []
  | e :: rest =>
      match event_get e "issue_id" with
      | Raised x => Raised x
      | Returned v =>
          match events_of_log issue_id rest with
          | Raised x => Raised x
          | Returned kept => Returned (if json_eq_value v issue_id then e :: kept else kept)
          end
      end
  end.

(** An event of the log as a dictionary of scalars, when it is an object
    whose entries are scalars: what the functions below take an event to
    be. *)
Fixpoint scalars (members : list (string * json)) : option dict :=
  match members with
  | [] => Some ∅
  | (k, JScalar v) :: rest =>
      match scalars rest with
      | Some d => Some (match d !! k with Some _ => d | None => <[k := v]> d end)
      | None => None
      end
  | _ => None
  end.

Definition as_dict (e : json) : option dict :=
  match e with
  | JObject members => scalars members
  | _ => None
  end.

(** [issue['created_at'] = created_at; issue['updated_at'] = updated_at]. *)
Definition set_timestamps (created_at updated_at : value) (issue : dict) : dict :=
  <["updated_at" := updated_at]> (<["created_at" := created_at]> issue).

(** The issue record as a call leaves it in its file. *)
Definition record_after (issue_file : file) (r : run) : dict :=
  default (content issue_file) (written r).

(** The progress lines show [issue['id'][:8]], which needs a string: an
    identifier the scripts can print is a string, or is skipped as missing. *)
Definition printable_id (f : file) : Prop :=
  truthy (get (content f) "id") = false ∨ ∃ s, get (content f) "id" = VStr s.

(** What [load_events] keeps of a line: the decoded event, unless the
    stripped line is empty or does not decode. *)
Definition decoded (strip : string → string) (json_loads : string → option json)
    (line : string) : option json :=
  if truthy (VStr (strip line)) then json_loads (strip line) else None.

(** A file on which the call [step] writes nothing and returns [False], and
    a path of the issues directory that holds such a file. *)
Definition settled (step : file → run) (f : file) : Prop :=
  written (step f) = None ∧ result (step f) = Returned false.

Definition settled_at (step : file → run) (st : gmap string file) (issue_file : string) : Prop :=
  ∃ f, st !! issue_file = Some f ∧ settled step f.

Section main.
(** The loop of [main] over [sorted(issue_files)]: [step] is the call on
    one file, [clock] the modification time a file gets when it is written. *)
Context (step : file → run) (clock : string → string).

Fixpoint process (issue_files : list string) (st : gmap string file)
    (out : list message) (modified_count : Z)
    : gmap string file * list message * outcome Z :=
  match issue_files with
  | [] => (st, out, Returned modified_count)
  | issue_file :: rest =>
      match st !! issue_file with
      | None => (st, out, Raised (FileNotFoundError issue_file))
      | Some f =>
          let r := step f in
          let st' :=
            match written r with
            | Some issue => <[issue_file := mkFile issue (clock issue_file)]> st
            | None => st
            end in
          match result r with
          | Returned true => process rest st' (out ++ printed r) (modified_count + 1)
          | Returned false => process rest st' (out ++ printed r) modified_count
          | Raised e => (st', out ++ printed r, Raised e)
          end
      end
  end.

End main.

End Script.

(** ** migrate_timestamps.py *)

Module Migrate.
Import Script.

Definition load_events := Script.load_events.

(** The [for event in issue_events] loop of [find_timestamps_from_events]:
    the timestamp of the first event whose [event_type] is [issue_created]. *)
Fixpoint first_created (issue_events : list dict) : value :=
  match issue_events with
  | [] => VNone
  | event :: rest =>
      if py_eq (get event "event_type") (VStr "issue_created")
      then get event "timestamp"
      else first_created rest
  end.

Definition find_timestamps_from_events (issue_id : value) (events : list dict)
    : value * value :=
  let issue_events := events_of issue_id events in
  match last issue_events with
  | None => (VNone, VNone)
  | Some e => (first_created issue_events, get e "timestamp")
  end.

(** [migrate_issue], from the [# Add timestamps] comment on. *)
Definition add_timestamps (issue : dict) (issue_id created_at updated_at : value)
    (dry_run : bool) (out : list message) : run :=
  let issue' := set_timestamps created_at updated_at issue in
  if dry_run then
    match slice8 issue_id with
    | Returned short => mkRun None (out ++ [WouldAdd short created_at updated_at]) (Returned true)
    | Raised e => mkRun None out (Raised e)
    end
  else
    match slice8 issue_id with
    | Returned short => mkRun (Some issue') (out ++ [Added short]) (Returned true)
    | Raised e => mkRun (Some issue') out (Raised e)
    end.

(** [get_file_mtime_rfc3339]. *)
Definition get_file_mtime_rfc3339 (issue_file : file) : value := VStr (mtime issue_file).

Definition migrate_issue (events : list dict) (dry_run : bool) (issue_file : file) : run :=
  let issue := content issue_file in
  let issue_id := get issue "id" in
  if negb (truthy issue_id) then mkRun None [WarnNoId] (Returned false)
  else if contains issue "created_at" && contains issue "updated_at"
  then mkRun None [] (Returned false)
  else
    let '(created_at, updated_at) := find_timestamps_from_events issue_id events in
    let file_timestamp := get_file_mtime_rfc3339 issue_file in
    let updated_at' := if truthy updated_at then updated_at else file_timestamp in
    if truthy created_at
    then add_timestamps issue issue_id created_at updated_at' dry_run []
    else
      match slice8 issue_id with
      | Returned short =>
          add_timestamps issue issue_id file_timestamp updated_at' dry_run
            [UsingMtime short]
      | Raised e => mkRun None [] (Raised e)
      end.

(** The loop of [main]. *)
Definition main_loop (events : list dict) (dry_run : bool) (clock : string → string)
    (issue_files : list string) (st : gmap string file)
    : gmap string file * list message * outcome Z :=
  process (migrate_issue events dry_run) clock issue_files st [] 0%Z.

End Migrate.

(** ** fix_timestamps.py *)

Module Fix.
Import Script.

Definition load_events := Script.load_events.

(** A progress line that shows [issue_id[:8]], and the [return] after it. *)
Definition report (issue_id : value) (line : string → message) (ret : bool) : run :=
  match slice8 issue_id with
  | Returned short => mkRun None [line short] (Returned ret)
  | Raised e => mkRun None [] (Raised e)
  end.

Definition fix_issue_timestamps (events : list dict) (dry_run : bool) (issue_file : file) : run :=
  let issue := content issue_file in
  let issue_id := get issue "id" in
  if negb (truthy issue_id) then mkRun None [WarnNoId] (Returned false)
  else
    let old_created := get issue "created_at" in
    let old_updated := get issue "updated_at" in
    if negb (truthy old_created) || negb (truthy old_updated)
    then report issue_id NoTimestamps false
    else
      let issue_events := events_of issue_id events in
      match head issue_events, last issue_events with
      | Some e0, Some en =>
          let first_timestamp := get e0 "timestamp" in
          let last_timestamp := get en "timestamp" in
          if negb (truthy first_timestamp) || negb (truthy last_timestamp)
          then report issue_id EventsMissingTimestamps false
          else if py_eq old_created first_timestamp && py_eq old_updated last_timestamp
          then mkRun None [] (Returned false)
          else if dry_run
          then report issue_id
                 (λ short, WouldUpdate short first_timestamp old_created last_timestamp old_updated)
                 true
          else
            let issue' := set_timestamps first_timestamp last_timestamp issue in
            match slice8 issue_id with
            | Returned short =>
                mkRun (Some issue') [Fixed short first_timestamp last_timestamp] (Returned true)
            | Raised e => mkRun (Some issue') [] (Raised e)
            end
      | _, _ => report issue_id NoEventsFound false
      end.

(** The loop of [main]. *)
Definition main_loop (events : list dict) (dry_run : bool) (clock : string → string)
    (issue_files : list string) (st : gmap string file)
    : gmap string file * list message * outcome Z :=
  process (fix_issue_timestamps events dry_run) clock issue_files st [] 0%Z.

End Fix.

(** ** The two modes of the reconciler *)

Inductive mode : Type :=
  | MigrateMode
  | RepairMode.

(** The call on one issue file, and the pass over the issue files, of the
    script of each mode. *)
Definition reconcile_issue (m : mode) : list dict → bool → Script.file → Script.run :=
  match m with
  | MigrateMode => Migrate.migrate_issue
  | RepairMode => Fix.fix_issue_timestamps
  end.

Definition reconcile (m : mode) : list dict → bool → (string → string) → list string →
    gmap string Script.file → gmap string Script.file * list Script.message * outcome Z :=
  match m with
  | MigrateMode => Migrate.main_loop
  | RepairMode => Fix.main_loop
  end.

(** ** Chronological order of timestamps *)

(** RFC 3339 timestamps of one fixed offset follow each other as the numbers
    their digits spell do.  [instant] reads a timestamp that way, and an
    integer timestamp as itself. *)
Fixpoint digits (s : string) (acc : Z) : Z :=
  match s with
  | EmptyString => acc
  | String c s' =>
      let n := Z.of_N (Ascii.N_of_ascii c) in
      if (48 <=? n)%Z && (n <=? 57)%Z then digits s' (10 * acc + (n - 48))%Z
      else digits s' acc
  end.

Definition instant (v : value) : Z :=
  match v with
  | VStr s => digits s 0%Z
  | VInt n => n
  | VBool b => int_of_bool b
  | VNone => 0%Z
  end.

(** The events are in chronological order when no event is earlier than one
    before it in the log, by the instants [epoch] their timestamps denote. *)
Definition chronological (epoch : value → Z) (events : list dict) : Prop :=
  StronglySorted
    (λ e1 e2, (epoch (get e1 "timestamp") ≤ epoch (get e2 "timestamp"))%Z) events.

(** ** Example data *)

Module Examples.
Import Orchestrator.

(** The pool of the specification's scenario: [A] is free, [B] is full. *)
Definition pool_AB : list Agent := [mkAgent "A" 1 0; mkAgent "B" 1 1].

Definition issue_i1 : json :=
  JObject [("id", JScalar (VStr "i1")); ("priority", JScalar (VStr "high"))].
Definition issue_i2 : json :=
  JObject [("id", JScalar (VStr "i2")); ("priority", JScalar (VStr "critical"))].

(** A ready issue with no [id] entry. *)
Definition issue_without_id : json := JObject [("priority", JScalar (VStr "critical"))].

(** Ready issues with no priority, with the priority [low], and with a
    priority that is an array. *)
Definition issue_plain : json := JObject [("id", JScalar (VStr "i3"))].
Definition issue_low : json :=
  JObject [("id", JScalar (VStr "i4")); ("priority", JScalar (VStr "low"))].
Definition issue_listed : json :=
  JObject [("id", JScalar (VStr "i5")); ("priority", JArray [JScalar (VStr "high")])].

(** A store that returns the given ready issues and answers the claims from
    the script. *)
Definition store_with (ready_issues : list json) (claims : list bool) : scripted :=
  mkScripted (Data (JObject [("issues", JArray ready_issues)])) claims.

(** A store whose ready query exits with a non-zero status. *)
Definition store_down : scripted := mkScripted CalledProcessError [].

(** A store whose command cannot be started, and one that answers the ready
    query with a JSON array. *)
Definition store_missing : scripted := mkScripted (QueryRaised (FileNotFoundError "jit")) [].
Definition store_array : scripted := mkScripted (Data (JArray [issue_i1])) [].

Definition run_cycle (w : scripted) (agents : list Agent) : cycle scripted :=
  dispatch_cycle scripted_query scripted_claim w agents.

(** An event as the tracker logs it: the kind is under [type]. *)
Definition logged (issue_id kind timestamp : string) : dict :=
  <["timestamp" := VStr timestamp]>
    (<["type" := VStr kind]> {[ "issue_id" := VStr issue_id ]}).

(** An event with its kind under [event_type], the entry that
    [find_timestamps_from_events] reads. *)
Definition typed (issue_id kind timestamp : string) : dict :=
  <["timestamp" := VStr timestamp]>
    (<["event_type" := VStr kind]> {[ "issue_id" := VStr issue_id ]}).

Definition t0 : string := "2024-01-01T09:00:00+00:00".
Definition t1 : string := "2024-01-02T09:00:00+00:00".
Definition t2 : string := "2024-01-03T09:00:00+00:00".
Definition t_file : string := "2024-03-01T12:00:00+00:00".
Definition t_old : string := "2023-12-24T18:00:00+00:00".

(** The log of the specification's repair example, for issue [X]. *)
Definition log_X : list dict :=
  [logged "X" "issue_created" t0; logged "Y" "issue_created" t0;
   logged "X" "issue_updated" t1; logged "X" "issue_closed" t2].

(** The same history with the kinds under [event_type]. *)
Definition log_typed_X : list dict :=
  [typed "X" "issue_created" t0; typed "Y" "issue_created" t0;
   typed "X" "issue_updated" t1; typed "X" "issue_closed" t2].

(** A log in which the creation marker of [X] is not its first event. *)
Definition log_late_marker : list dict :=
  [typed "X" "issue_imported" t0; typed "X" "issue_created" t1;
   typed "X" "issue_updated" t2].

(** Issue files of [X]: with no timestamps, with [created_at] only, with
    [updated_at] only, and with both. *)
Definition file_bare : Script.file :=
  Script.mkFile (<["title" := VStr "an issue"]> {[ "id" := VStr "X" ]}) t_file.

Definition file_created_only : Script.file :=
  Script.mkFile (<["created_at" := VStr t_old]> {[ "id" := VStr "X" ]}) t_file.

Definition file_updated_only : Script.file :=
  Script.mkFile (<["updated_at" := VStr t_old]> {[ "id" := VStr "X" ]}) t_file.

Definition file_both : Script.file :=
  Script.mkFile
    (<["updated_at" := VStr t_file]> (<["created_at" := VStr t_file]> {[ "id" := VStr "X" ]}))
    t_file.

(** An issue file with no [id]. *)
Definition file_without_id : Script.file :=
  Script.mkFile {[ "title" := VStr "no identifier" ]} t_file.

(** An issues directory. *)
Definition store_XN : gmap string Script.file :=
  <["n.json" := file_without_id]> {[ "x.json" := file_bare ]}.

Definition store_X_both : gmap string Script.file := {[ "x.json" := file_both ]}.

Definition clock (issue_file : string) : string := "2024-06-01T00:00:00+00:00".

End Examples.

(** ** The daemon loop of simple-orchestrator.py *)

Module Daemon.
Import Orchestrator.

(** The lines [run_daemon] prints, with those of its cycles. *)
Inductive line : Type :=
  | Starting (agents : nat)
  | PollInterval (seconds : Z)
  | FromCycle (m : message)
  | AssignedIssues (assigned : Z)
  | ShuttingDown.

(** How a run of the daemon ends: by the [KeyboardInterrupt] it catches, by
    an exception that escapes a cycle, or by the [ValueError] of
    [time.sleep] on a negative interval. *)
Inductive ending : Type :=
  | Interrupted
  | Escaped (e : exn)
  | SleepValueError.

Record daemon (World : Type) : Type := mkDaemon {
  world : World;
  pool : list Agent;
  printed : list line;
  ended : ending
}.
Arguments mkDaemon {World} _ _ _ _.
Arguments world {World} _.
Arguments pool {World} _.
Arguments printed {World} _.
Arguments ended {World} _.

Section store.
Context {World : Type}.
Context (jit_query_ready : World → World * query_reply).
Context (jit_issue_claim : string → string → World → World * claim_reply).
Context (poll_interval : Z).

(** The [while True] loop of [run_daemon], interrupted from the keyboard
    during the sleep that follows [sleeps] completed ones. *)
Fixpoint daemon_loop (sleeps : nat) (w : World) (agents : list Agent) (out : list line)
    : daemon World :=
  let r := dispatch_cycle jit_query_ready jit_issue_claim w agents in
  let out1 := out ++ (FromCycle <$> Orchestrator.printed r) in
  match Orchestrator.result r with
  | Raised e => mkDaemon (Orchestrator.world r) (Orchestrator.pool r) out1 (Escaped e)
  | Returned assigned =>
      let out2 := if (0 <? assigned)%Z then out1 ++ [AssignedIssues assigned] else out1 in
      if (poll_interval <? 0)%Z
      then mkDaemon (Orchestrator.world r) (Orchestrator.pool r) out2 SleepValueError
      else
        match sleeps with
        | O =>
            mkDaemon (Orchestrator.world r) (Orchestrator.pool r) (out2 ++ [ShuttingDown])
              Interrupted
        | S sleeps' => daemon_loop sleeps' (Orchestrator.world r) (Orchestrator.pool r) out2
        end
  end.

Definition run_daemon (sleeps : nat) (w : World) (agents : list Agent) : daemon World :=
  daemon_loop sleeps w agents [Starting (length agents); PollInterval poll_interval].

End store.

(** The sum of the counts the daemon has reported. *)
Definition assigned_total (out : list line) : Z :=
  foldr (λ l acc, match l with AssignedIssues n => (n + acc)%Z | _ => acc end) 0%Z out.

End Daemon.

(** ** Measures on what the scripts print and read *)

(** The [Assigned] lines among the lines of a cycle. *)
Definition is_assigned (m : Orchestrator.message) : bool :=
  match m with
  | Orchestrator.Assigned _ _ => true
  | _ => false
  end.

Definition assigned_lines (out : list Orchestrator.message) : Z :=
  Z.of_nat (length (List.filter is_assigned out)).

(** An issue paired with its key. *)
Definition keyed (p : Z * json) : Prop := Orchestrator.sort_key p.2 = Returned p.1.

(** An agent of the pool with no spare capacity. *)
Definition saturated (agent : Orchestrator.Agent) : Prop :=
  (Orchestrator.max_concurrent agent ≤ Orchestrator.current_load agent)%Z.

(** The same agent, possibly with a greater load. *)
Definition loaded_from (before after : Orchestrator.Agent) : Prop :=
  Orchestrator.id after = Orchestrator.id before ∧
  Orchestrator.max_concurrent after = Orchestrator.max_concurrent before ∧
  (Orchestrator.current_load before ≤ Orchestrator.current_load after)%Z.

(** A line of the log that is not blank and does not decode. *)
Definition unparseable (strip : string → string) (json_loads : string → option json)
    (line : string) : bool :=
  truthy (VStr (strip line)) && bool_decide (json_loads (strip line) = None).

(** A line of the log that is not blank. *)
Definition nonblank (strip : string → string) (line : string) : bool :=
  truthy (VStr (strip line)).

(** An event that is a creation marker for [find_timestamps_from_events]. *)
Definition is_marker (event : dict) : bool :=
  py_eq (get event "event_type") (VStr "issue_created").

(** A record with both timestamp entries. *)
Definition has_timestamps (issue : dict) : Prop :=
  is_Some (issue !! "created_at") ∧ is_Some (issue !! "updated_at").

(** * Properties *)

(** Closed goals about the example data: conjunctions of equations, which
    hold by conversion, and of inequations and comparisons, which are
    evaluated. *)
Ltac evaluated :=
  solve [cbv zeta; repeat split; first [reflexivity | vm_compute; done]].

(** ** Python values *)

Lemma py_eq_refl (v : value) : py_eq v v = true.
Proof.
  destruct v as [|b|n|s]; simpl; try done.
  - apply Z.eqb_refl.
  - apply Z.eqb_refl.
  - by apply bool_decide_eq_true.
Qed.

Lemma py_eq_str (v : value) (s : string) : py_eq v (VStr s) = true → v = VStr s.
Proof.
  destruct v as [|b|n|t]; simpl; try done.
  intros H. apply bool_decide_eq_true in H. by subst.
Qed.

(** ** The stable sort *)

Section sort_by_key_facts.
Context {A : Type} (key : A → Z).

Lemma insert_by_key_perm x l : insert_by_key key x l ≡ₚ x :: l.
Proof.
  induction l as [|y l IH]; simpl; [done|].
  destruct (key x <=? key y)%Z; [done|].
  rewrite IH. apply Permutation_swap.
Qed.

Lemma sort_by_key_perm l : sort_by_key key l ≡ₚ l.
Proof.
  induction l as [|x l IH]; simpl; [done|].
  by rewrite insert_by_key_perm, IH.
Qed.

Lemma insert_by_key_sorted x l :
  StronglySorted (key_le key) l → StronglySorted (key_le key) (insert_by_key key x l).
Proof.
  induction 1 as [|y l Hl IH Hy]; simpl.
  - repeat constructor.
  - destruct (key x <=? key y)%Z eqn:E.
    + apply Z.leb_le in E. constructor; [by constructor|].
      constructor; [done|].
      eapply Forall_impl; [exact Hy|]. unfold key_le. intros; lia.
    + apply Z.leb_gt in E. constructor; [done|].
      rewrite insert_by_key_perm. constructor; [|done].
      unfold key_le. lia.
Qed.

Lemma sort_by_key_sorted l : StronglySorted (key_le key) (sort_by_key key l).
Proof.
  induction l as [|x l IH]; simpl; [constructor|].
  by apply insert_by_key_sorted.
Qed.

(** Stability: the elements of one key keep their input order. *)
Lemma insert_by_key_stable k x l :
  StronglySorted (key_le key) l →
  filter (λ y, key y = k) (insert_by_key key x l) = filter (λ y, key y = k) (x :: l).
Proof.
  induction 1 as [|y l Hl IH Hy]; simpl; [done|].
  destruct (key x <=? key y)%Z eqn:E; [done|].
  apply Z.leb_gt in E.
  rewrite !filter_cons. rewrite filter_cons in IH.
  destruct (decide (key y = k)) as [Hyk|Hyk];
    destruct (decide (key x = k)) as [Hxk|Hxk]; try (by rewrite IH).
  lia.
Qed.

Lemma sort_by_key_stable k l :
  filter (λ y, key y = k) (sort_by_key key l) = filter (λ y, key y = k) l.
Proof.
  induction l as [|x l IH]; simpl; [done|].
  rewrite insert_by_key_stable by apply sort_by_key_sorted.
  by rewrite !filter_cons, IH.
Qed.

End sort_by_key_facts.

(** ** Priority ranking *)

Lemma priority_rank_unknown (v : value) :
  v ∉ [VStr "critical"; VStr "high"; VStr "normal"; VStr "low"] →
  Orchestrator.priority_rank (JScalar v) = Returned 4%Z.
Proof.
  intros Hv. destruct v as [| | |s]; simpl; try done.
  unfold Orchestrator.priority_order.
  rewrite !lookup_insert_ne, lookup_empty; [done|..];
    intros <-; apply Hv; set_solver.
Qed.

Lemma sort_keys_keyed ready_issues pairs :
  Orchestrator.sort_keys ready_issues = Returned pairs →
  pairs.*2 = ready_issues ∧ Forall keyed pairs.
Proof.
  revert pairs. induction ready_issues as [|i rest IH]; intros pairs; simpl.
  { by intros [= <-]. }
  destruct (Orchestrator.sort_key i) as [k|e] eqn:Hk; [|done].
  destruct (Orchestrator.sort_keys rest) as [pairs'|e]; [|done].
  intros [= <-]. destruct (IH pairs' eq_refl) as [Hsnd Hkeyed].
  split; [by rewrite fmap_cons, Hsnd|]. by constructor.
Qed.

Lemma sort_keys_of_keyed pairs :
  Forall keyed pairs → Orchestrator.sort_keys pairs.*2 = Returned pairs.
Proof.
  induction 1 as [|[k i] pairs Hk _ IH]; [done|].
  rewrite fmap_cons. cbn [Orchestrator.sort_keys snd].
  unfold keyed in Hk. simpl in Hk. by rewrite Hk, IH.
Qed.

Lemma rankable_has_key issue :
  Orchestrator.rankable issue → ∃ k, Orchestrator.sort_key issue = Returned k.
Proof.
  intros (members & -> & [Hnone|[v Hv]]); simpl.
  - rewrite Hnone. by eexists.
  - rewrite Hv. simpl. destruct v; by eexists.
Qed.

Lemma sort_keys_returns ready_issues :
  Forall Orchestrator.rankable ready_issues →
  ∃ pairs, Orchestrator.sort_keys ready_issues = Returned pairs.
Proof.
  induction 1 as [|i rest Hi _ [pairs IH]]; simpl; [by eexists|].
  destruct (rankable_has_key i Hi) as [k ->]. rewrite IH. by eexists.
Qed.

Lemma sort_keys_raises pre issue post e :
  Forall Orchestrator.rankable pre →
  Orchestrator.sort_key issue = Raised e →
  Orchestrator.sort_keys (pre ++ issue :: post) = Raised e.
Proof.
  intros Hpre Hissue. induction Hpre as [|i pre Hi _ IH]; simpl.
  - by rewrite Hissue.
  - destruct (rankable_has_key i Hi) as [k ->]. by rewrite IH.
Qed.

Lemma keyed_sorted pairs :
  Forall keyed pairs → StronglySorted (key_le fst) pairs →
  StronglySorted Orchestrator.rank_le pairs.*2.
Proof.
  intros Hkeyed Hsorted. induction Hsorted as [|p pairs _ IH Hp]; simpl; [constructor|].
  apply Forall_cons in Hkeyed as [Hk Hkeyed]. constructor; [by apply IH|].
  apply Forall_fmap, Forall_forall. intros q Hq. simpl.
  rewrite Forall_forall in Hp, Hkeyed.
  exists p.1, q.1. split; [done|]. split; [by apply Hkeyed|by apply Hp].
Qed.

Lemma sorted_keyed pairs :
  Forall keyed pairs → StronglySorted Orchestrator.rank_le pairs.*2 →
  StronglySorted (key_le fst) pairs.
Proof.
  intros Hkeyed. induction Hkeyed as [|p pairs Hk Hkeyed IH]; simpl; [constructor|].
  intros Hsorted. apply StronglySorted_inv in Hsorted as [Hrest Hp].
  constructor; [by apply IH|].
  rewrite Forall_fmap in Hp. rewrite Forall_forall in Hp, Hkeyed |- *.
  intros q Hq. destruct (Hp q Hq) as (ka & kb & Ha & Hb & Hle). simpl in Ha, Hb.
  unfold keyed in Hk. specialize (Hkeyed q Hq). unfold keyed in Hkeyed.
  unfold key_le. congruence.
Qed.

Lemma keyed_filter k pairs :
  Forall keyed pairs →
  filter (λ i, Orchestrator.sort_key i = Returned k) pairs.*2
  = (filter (λ p : Z * json, p.1 = k) pairs).*2.
Proof.
  induction 1 as [|p pairs Hk _ IH]; [done|].
  rewrite fmap_cons, !filter_cons, IH. unfold keyed in Hk.
  destruct (decide (p.1 = k)) as [Heq|Hne].
  - rewrite decide_True by (by rewrite Hk, Heq). by rewrite fmap_cons.
  - rewrite decide_False; [done|]. rewrite Hk. by intros [= ?].
Qed.

(** What a sort that returns has done. *)
Lemma sort_by_priority_returned ready_issues ranked :
  Orchestrator.sort_by_priority ready_issues = Returned ranked →
  ranked ≡ₚ ready_issues ∧
  StronglySorted Orchestrator.rank_le ranked ∧
  ∀ k, filter (λ i, Orchestrator.sort_key i = Returned k) ranked
       = filter (λ i, Orchestrator.sort_key i = Returned k) ready_issues.
Proof.
  unfold Orchestrator.sort_by_priority.
  destruct (Orchestrator.sort_keys ready_issues) as [pairs|e] eqn:Hkeys; [|done].
  intros [= <-]. apply sort_keys_keyed in Hkeys as [<- Hkeyed].
  assert (Hperm : sort_by_key fst pairs ≡ₚ pairs) by apply sort_by_key_perm.
  assert (Hkeyed' : Forall keyed (sort_by_key fst pairs)) by (by rewrite Hperm).
  split; [by rewrite Hperm|]. split.
  - apply keyed_sorted; [done|apply sort_by_key_sorted].
  - intros k. rewrite !keyed_filter by done. by rewrite sort_by_key_stable.
Qed.

Lemma sort_by_priority_returns ready_issues :
  Forall Orchestrator.rankable ready_issues →
  ∃ ranked, Orchestrator.sort_by_priority ready_issues = Returned ranked.
Proof.
  intros Hall. unfold Orchestrator.sort_by_priority.
  destruct (sort_keys_returns _ Hall) as [pairs ->]. by eexists.
Qed.

(** C2, as the code has it: the ranking is a stable sort of the ready issues
    by the key critical = 0 < high = 1 < normal = 2 < low = 3; an issue with
    no priority entry is ranked as normal (2), and an issue whose priority
    entry is a JSON scalar other than one of the four names, [null]
    included, is ranked 4, after them.  The sort returns when every issue
    is a [dict] whose priority, if it has one, is a scalar. *)
Theorem ranking_sorts_by_priority_key (ready_issues : list json) :
  (∀ ranked, Orchestrator.sort_by_priority ready_issues = Returned ranked →
     ranked ≡ₚ ready_issues ∧
     StronglySorted Orchestrator.rank_le ranked ∧
     ∀ k, filter (λ i, Orchestrator.sort_key i = Returned k) ranked
          = filter (λ i, Orchestrator.sort_key i = Returned k) ready_issues) ∧
  (Forall Orchestrator.rankable ready_issues →
   ∃ ranked, Orchestrator.sort_by_priority ready_issues = Returned ranked) ∧
  (∀ members : list (string * json),
     (entry members "priority" = Some (JScalar (VStr "critical")) →
      Orchestrator.sort_key (JObject members) = Returned 0%Z) ∧
     (entry members "priority" = Some (JScalar (VStr "high")) →
      Orchestrator.sort_key (JObject members) = Returned 1%Z) ∧
     (entry members "priority" = Some (JScalar (VStr "normal")) →
      Orchestrator.sort_key (JObject members) = Returned 2%Z) ∧
     (entry members "priority" = Some (JScalar (VStr "low")) →
      Orchestrator.sort_key (JObject members) = Returned 3%Z) ∧
     (entry members "priority" = None →
      Orchestrator.sort_key (JObject members) = Returned 2%Z) ∧
     (∀ v, entry members "priority" = Some (JScalar v) →
           v ∉ [VStr "critical"; VStr "high"; VStr "normal"; VStr "low"] →
           Orchestrator.sort_key (JObject members) = Returned 4%Z)).
Proof.
  split; [intros ranked; apply sort_by_priority_returned|].
  split; [apply sort_by_priority_returns|].
  intros members. unfold Orchestrator.sort_key.
  repeat split; try (by intros ->).
  intros v -> Hv. simpl. by apply priority_rank_unknown.
Qed.

(** C2 as the specification states it fails: an issue with no priority entry
    has rank 2, not 4, and the ranking puts it in front of a low issue that
    the store returned before it. *)
Lemma absent_priority_sorts_before_low :
  let absent := JObject [("id", JScalar (VStr "i1"))] in
  let low := JObject [("id", JScalar (VStr "i2")); ("priority", JScalar (VStr "low"))] in
  entry [("id", JScalar (VStr "i1"))] "priority" = None ∧
  Orchestrator.sort_key absent ≠ Returned 4%Z ∧
  Orchestrator.sort_by_priority [low; absent] = Returned [absent; low].
Proof. evaluated. Qed.

(** ** The agent pool *)

Lemma get_available_agent_Some agents i agent :
  Orchestrator.get_available_agent agents = Some (i, agent) →
  agents !! i = Some agent ∧
  (Orchestrator.current_load agent < Orchestrator.max_concurrent agent)%Z.
Proof.
  unfold Orchestrator.get_available_agent. intros H.
  apply list_find_Some in H as (Hi & Hlt & _). by split.
Qed.

Lemma spare_capacity_nonneg agents :
  Forall Orchestrator.within_capacity agents → (0 ≤ Orchestrator.spare_capacity agents)%Z.
Proof.
  induction 1 as [|a l Ha _ IH]; simpl; [done|].
  unfold Orchestrator.within_capacity in Ha. lia.
Qed.

Lemma spare_capacity_increment agents i agent :
  agents !! i = Some agent →
  Orchestrator.spare_capacity (Orchestrator.increment_load i agent agents)
  = (Orchestrator.spare_capacity agents - 1)%Z.
Proof.
  unfold Orchestrator.increment_load.
  revert i. induction agents as [|a l IH]; intros [|i] H; simplify_eq/=; [lia|].
  rewrite (IH i H). lia.
Qed.

Lemma within_capacity_increment agents i agent :
  Forall Orchestrator.within_capacity agents →
  agents !! i = Some agent →
  (Orchestrator.current_load agent < Orchestrator.max_concurrent agent)%Z →
  Forall Orchestrator.within_capacity (Orchestrator.increment_load i agent agents).
Proof.
  intros Hall Hi Hlt. apply Forall_insert; [done|].
  pose proof (Forall_lookup_1 _ _ _ _ Hall Hi) as Ha.
  unfold Orchestrator.within_capacity in *. simpl. lia.
Qed.

(** ** The dispatch cycle *)

Lemma assigned_lines_app out1 out2 :
  assigned_lines (out1 ++ out2) = (assigned_lines out1 + assigned_lines out2)%Z.
Proof. unfold assigned_lines. rewrite List.filter_app, length_app. lia. Qed.

Section dispatch_facts.
Context {World : Type}.
Context (jit_query_ready : World → World * Orchestrator.query_reply).
Context (jit_issue_claim : string → string → World → World * Orchestrator.claim_reply).

Local Abbreviation dispatch_loop := (Orchestrator.dispatch_loop jit_issue_claim).
Local Abbreviation dispatch_cycle := (Orchestrator.dispatch_cycle jit_query_ready jit_issue_claim).
Local Abbreviation query_ready_issues := (Orchestrator.query_ready_issues jit_query_ready).
Local Abbreviation ready_issues := (Orchestrator.ready_issues jit_query_ready).

(** The walk over the ranked issues keeps every agent within its capacity;
    when it returns, the count has grown by at most one per issue, and by
    exactly the capacity the pool has lost. *)
Lemma dispatch_loop_bounds ranked w agents out n :
  Forall Orchestrator.within_capacity agents →
  let r := dispatch_loop ranked w agents out n in
  Forall Orchestrator.within_capacity (Orchestrator.pool r) ∧
  ∀ m, Orchestrator.result r = Returned m →
       (n ≤ m ≤ n + Z.of_nat (length ranked))%Z ∧
       Orchestrator.spare_capacity (Orchestrator.pool r)
       = (Orchestrator.spare_capacity agents - (m - n))%Z.
Proof.
  revert w agents out n.
  induction ranked as [|issue rest IH]; intros w agents out n Hcap; simpl.
  { split; [done|]. intros m [= <-]. lia. }
  destruct (Orchestrator.get_available_agent agents) as [[i agent]|] eqn:Ha; simpl;
    [|split; [done|]; intros m [= <-]; lia].
  apply get_available_agent_Some in Ha as [Hi Hlt].
  destruct issue as [v|items|members]; simpl; try (split; [done|]; by intros m).
  destruct (entry members "id") as [[[| | |issue_id]|items|members']|]; simpl;
    try (split; [done|]; by intros m).
  unfold Orchestrator.claim_issue.
  destruct (jit_issue_claim _ _ w) as [w' [| |e]]; simpl.
  - specialize (IH w' (Orchestrator.increment_load i agent agents)
      (out ++ [] ++ [Orchestrator.Assigned issue_id (Orchestrator.id agent)]) (n + 1)%Z
      (within_capacity_increment _ _ _ Hcap Hi Hlt)).
    simpl in IH. destruct IH as [IH1 IH2]. split; [done|].
    intros m Hm. destruct (IH2 m Hm) as [? Hs].
    rewrite Hs, (spare_capacity_increment _ _ _ Hi). lia.
  - specialize (IH w' agents
      (out ++ [Orchestrator.FailedToClaim issue_id ("agent:" +:+ Orchestrator.id agent)]) n Hcap).
    simpl in IH. destruct IH as [IH1 IH2]. split; [done|].
    intros m Hm. destruct (IH2 m Hm) as [? Hs]. rewrite Hs. lia.
  - split; [done|]. by intros m.
Qed.

(** Every increment of a load is reported by one [Assigned] line. *)
Lemma dispatch_loop_assigned ranked w agents out n :
  let r := dispatch_loop ranked w agents out n in
  (assigned_lines (Orchestrator.printed r) - assigned_lines out
   = Orchestrator.spare_capacity agents - Orchestrator.spare_capacity (Orchestrator.pool r))%Z ∧
  ∀ m, Orchestrator.result r = Returned m →
       (m - n = assigned_lines (Orchestrator.printed r) - assigned_lines out)%Z.
Proof.
  revert w agents out n.
  induction ranked as [|issue rest IH]; intros w agents out n; simpl.
  { split; [lia|]. intros m [= <-]. lia. }
  destruct (Orchestrator.get_available_agent agents) as [[i agent]|] eqn:Ha; simpl;
    [|split; [lia|]; intros m [= <-]; lia].
  apply get_available_agent_Some in Ha as [Hi _].
  destruct issue as [v|items|members]; simpl; try (split; [lia|]; by intros m).
  destruct (entry members "id") as [[[| | |issue_id]|items|members']|]; simpl;
    try (split; [lia|]; by intros m).
  unfold Orchestrator.claim_issue.
  destruct (jit_issue_claim _ _ w) as [w' [| |e]]; simpl.
  - match goal with |- context [dispatch_loop rest w' ?a ?o ?k] =>
      destruct (IH w' a o k) as [IH1 IH2] end.
    rewrite (spare_capacity_increment _ _ _ Hi) in IH1.
    rewrite !assigned_lines_app in IH1, IH2.
    change (assigned_lines [Orchestrator.Assigned issue_id (Orchestrator.id agent)])
      with 1%Z in IH1, IH2.
    change (assigned_lines []) with 0%Z in IH1, IH2.
    split; [lia|]. intros m Hm. specialize (IH2 m Hm). lia.
  - match goal with |- context [dispatch_loop rest w' ?a ?o ?k] =>
      destruct (IH w' a o k) as [IH1 IH2] end.
    rewrite !assigned_lines_app in IH1, IH2.
    change (assigned_lines [Orchestrator.FailedToClaim _ _]) with 0%Z in IH1, IH2.
    split; [lia|]. intros m Hm. specialize (IH2 m Hm). lia.
  - rewrite app_nil_r. split; [lia|]. by intros m.
Qed.

Lemma query_prints_no_assignment w : assigned_lines (query_ready_issues w).1.2 = 0%Z.
Proof.
  unfold Orchestrator.query_ready_issues.
  destruct (jit_query_ready w) as [w' [| |[v|items|members]|e]]; done.
Qed.

(** The cases of a cycle: it ends at the query, at an empty answer, at the
    sort, or it walks the ranked list. *)
Lemma dispatch_cycle_cases w agents :
  let r := dispatch_cycle w agents in
  let w' := (query_ready_issues w).1.1 in
  let out := (query_ready_issues w).1.2 in
  (r = Orchestrator.mkCycle w' agents out (Orchestrator.result r) ∧
   (∀ m, Orchestrator.result r = Returned m → m = 0%Z)) ∨
  (∃ items ranked,
     (query_ready_issues w).2 = Returned (JArray items) ∧
     Orchestrator.sort_by_priority items = Returned ranked ∧
     r = dispatch_loop ranked w' agents out 0%Z).
Proof.
  unfold Orchestrator.dispatch_cycle.
  destruct (query_ready_issues w) as [[w' out] [ready|e]]; simpl.
  2:{ left. split; [done|]. by intros m. }
  destruct ready as [v|[|issue rest]|[|member rest]]; simpl;
    try (left; split; [done|]; intros m; by intros [= <-]).
  - destruct (truthy v); simpl; left; (split; [done|]); intros m; by intros [= <-].
  - destruct (Orchestrator.sort_by_priority (issue :: rest)) as [ranked|e] eqn:Hsort.
    + right. by exists (issue :: rest), ranked.
    + left. split; [done|]. by intros m.
Qed.

(** C6: a cycle that starts with every agent within its capacity leaves
    every agent within its capacity, however it ends; and a count it returns
    is the number of claims the store has accepted in the cycle, each
    reported by one [Assigned] line, is at most the number of ready issues
    the query returned and at most the spare capacity of the pool at the
    start, the sum over the agents of [max_concurrent − current_load], and
    is exactly the capacity the pool has lost. *)
Theorem dispatch_cycle_within_capacity (w : World) (agents : list Orchestrator.Agent) :
  Forall Orchestrator.within_capacity agents →
  let r := dispatch_cycle w agents in
  Forall Orchestrator.within_capacity (Orchestrator.pool r) ∧
  (∀ m, Orchestrator.result r = Returned m →
        (0 ≤ m)%Z ∧
        (m ≤ Z.of_nat (length (ready_issues w)))%Z ∧
        (m ≤ Orchestrator.spare_capacity agents)%Z ∧
        m = assigned_lines (Orchestrator.printed r) ∧
        Orchestrator.spare_capacity (Orchestrator.pool r)
        = (Orchestrator.spare_capacity agents - m)%Z).
Proof.
  intros Hcap. cbv zeta.
  pose proof (query_prints_no_assignment w) as Hq.
  pose proof (spare_capacity_nonneg _ Hcap) as Hspare.
  destruct (dispatch_cycle_cases w agents) as [[Hr Hzero]|(items & ranked & Hquery & Hsort & Hr)].
  - rewrite Hr. simpl. split; [done|]. intros m Hm. specialize (Hzero m Hm). subst m.
    repeat split; lia.
  - rewrite Hr.
    destruct (dispatch_loop_bounds ranked (query_ready_issues w).1.1 agents
                (query_ready_issues w).1.2 0%Z Hcap) as [Hpool Hcount].
    destruct (dispatch_loop_assigned ranked (query_ready_issues w).1.1 agents
                (query_ready_issues w).1.2 0%Z) as [_ Hlines].
    split; [done|]. intros m Hm.
    destruct (Hcount m Hm) as [Hm' Hs]. specialize (Hlines m Hm).
    pose proof (spare_capacity_nonneg _ Hpool).
    apply sort_by_priority_returned in Hsort as (Hperm & _).
    rewrite (Permutation_length Hperm) in Hm'.
    unfold Orchestrator.ready_issues. rewrite Hquery.
    repeat split; lia.
Qed.

(** X29: the failures of the ready query that [query_ready_issues] handles.
    When the store command exits with a non-zero status, or its output is
    not JSON, [query_ready_issues] returns the empty list and prints one
    error line, and the cycle returns 0, claims nothing and leaves the pool
    as it was; any other exception of [subprocess.run] ends the cycle as it
    is, with nothing printed. *)
Theorem failed_query_yields_no_assignments (w : World) (agents : list Orchestrator.Agent) :
  ((jit_query_ready w).2 = Orchestrator.CalledProcessError ∨
   (jit_query_ready w).2 = Orchestrator.JSONDecodeError →
   query_ready_issues w
   = ((jit_query_ready w).1, [Orchestrator.ErrorQuerying], Returned (JArray [])) ∧
   dispatch_cycle w agents
   = Orchestrator.mkCycle (jit_query_ready w).1 agents [Orchestrator.ErrorQuerying]
       (Returned 0%Z)) ∧
  (∀ e, (jit_query_ready w).2 = Orchestrator.QueryRaised e →
        dispatch_cycle w agents
        = Orchestrator.mkCycle (jit_query_ready w).1 agents [] (Raised e)).
Proof.
  unfold Orchestrator.dispatch_cycle, Orchestrator.query_ready_issues.
  destruct (jit_query_ready w) as [w' reply]; simpl. split.
  - by intros [-> | ->].
  - by intros e ->.
Qed.

End dispatch_facts.

(** The scenario of the specification: with [A] free and [B] full, the
    cycle claims the critical issue [i2] for [A] and defers [i1]. *)
Example dispatch_scenario :
  Examples.run_cycle (Examples.store_with [Examples.issue_i1; Examples.issue_i2] [true])
    Examples.pool_AB
  = Orchestrator.mkCycle
      (Examples.store_with [Examples.issue_i1; Examples.issue_i2] [])
      [Orchestrator.mkAgent "A" 1 1; Orchestrator.mkAgent "B" 1 1]
      [Orchestrator.Assigned "i2" "A"]
      (Returned 1%Z).
Proof. evaluated. Qed.

(** A lost claim leaves the agent free for the next issue of the ranking. *)
Example dispatch_lost_race :
  Examples.run_cycle (Examples.store_with [Examples.issue_i1; Examples.issue_i2] [false; true])
    Examples.pool_AB
  = Orchestrator.mkCycle
      (Examples.store_with [Examples.issue_i1; Examples.issue_i2] [])
      [Orchestrator.mkAgent "A" 1 1; Orchestrator.mkAgent "B" 1 1]
      [Orchestrator.FailedToClaim "i2" "agent:A"; Orchestrator.Assigned "i1" "A"]
      (Returned 1%Z).
Proof. evaluated. Qed.

(** C6 on the pool of the scenario. *)
Lemma dispatch_cycle_within_capacity_witness :
  Forall Orchestrator.within_capacity Examples.pool_AB ∧
  Forall Orchestrator.within_capacity
    (Orchestrator.pool
       (Examples.run_cycle
          (Examples.store_with [Examples.issue_i1; Examples.issue_i2] [true])
          Examples.pool_AB)).
Proof.
  assert (H : Forall Orchestrator.within_capacity Examples.pool_AB).
  { repeat constructor; unfold Orchestrator.within_capacity; simpl; lia. }
  split; [exact H|].
  exact (proj1 (dispatch_cycle_within_capacity
                  Orchestrator.scripted_query Orchestrator.scripted_claim
                  (Examples.store_with [Examples.issue_i1; Examples.issue_i2] [true])
                  Examples.pool_AB H)).
Defined.

(** X29 on a store whose ready query exits with a non-zero status. *)
Lemma failed_query_yields_no_assignments_witness :
  (Orchestrator.scripted_query Examples.store_down).2 = Orchestrator.CalledProcessError ∧
  Orchestrator.result (Examples.run_cycle Examples.store_down Examples.pool_AB) = Returned 0%Z.
Proof.
  split; [reflexivity|].
  unfold Examples.run_cycle.
  rewrite (proj2 (proj1 (failed_query_yields_no_assignments
                    Orchestrator.scripted_query Orchestrator.scripted_claim
                    Examples.store_down Examples.pool_AB) (or_introl eq_refl))).
  reflexivity.
Defined.

(** C8 at a store command that cannot be started, and at a reply that is
    JSON but not an object: [subprocess.run] raises [FileNotFoundError], and
    [data.get] raises [AttributeError] on the decoded list;
    [query_ready_issues] catches neither, and nothing in the cycle does: the
    cycle ends with the exception, with no list, no error line and no
    count. *)
Theorem dispatch_cycle_raises_on_unhandled_query_failure :
  Examples.run_cycle Examples.store_missing Examples.pool_AB
  = Orchestrator.mkCycle Examples.store_missing Examples.pool_AB []
      (Raised (FileNotFoundError "jit")) ∧
  Examples.run_cycle Examples.store_array Examples.pool_AB
  = Orchestrator.mkCycle Examples.store_array Examples.pool_AB [] (Raised AttributeError).
Proof. evaluated. Qed.

(** C9 at a ready issue with no [id] entry: the lookup [issue["id"]] raises
    [KeyError], which nothing in the cycle catches; the cycle ends there,
    without a count, and the well-formed issue [i1] behind it is not tried
    although agent [A] is free. *)
Theorem dispatch_cycle_raises_on_issue_without_id :
  Examples.run_cycle
    (Examples.store_with [Examples.issue_without_id; Examples.issue_i1] [true; true])
    Examples.pool_AB
  = Orchestrator.mkCycle
      (Examples.store_with [Examples.issue_without_id; Examples.issue_i1] [true; true])
      Examples.pool_AB
      []
      (Raised (KeyError "id")).
Proof. evaluated. Qed.

(** * Further properties of the orchestrator *)

(** ** The agent pool *)

(** X1: the agent [get_available_agent] returns is in the pool, has spare
    capacity, and is the first such agent: every agent before it is
    saturated. *)
Theorem available_agent_is_first_fit (agents : list Orchestrator.Agent) (i : nat)
    (agent : Orchestrator.Agent) :
  Orchestrator.get_available_agent agents = Some (i, agent) →
  agents !! i = Some agent ∧
  (Orchestrator.current_load agent < Orchestrator.max_concurrent agent)%Z ∧
  ∀ j other, agents !! j = Some other → (j < i)%nat → saturated other.
Proof.
  unfold Orchestrator.get_available_agent. intros H.
  apply list_find_Some in H as (Hi & Hlt & Hfirst).
  split; [done|]. split; [done|].
  intros j other Hj Hlt'. specialize (Hfirst j other Hj Hlt').
  unfold saturated. lia.
Qed.

(** X1 on a pool whose first agent is full. *)
Lemma available_agent_is_first_fit_witness :
  let agents := [Orchestrator.mkAgent "B" 1 1; Orchestrator.mkAgent "A" 2 1;
                 Orchestrator.mkAgent "C" 5 0] in
  Orchestrator.get_available_agent agents = Some (1%nat, Orchestrator.mkAgent "A" 2 1) ∧
  ∀ j other, agents !! j = Some other → (j < 1)%nat → saturated other.
Proof.
  split; [reflexivity|].
  exact (proj2 (proj2 (available_agent_is_first_fit
    [Orchestrator.mkAgent "B" 1 1; Orchestrator.mkAgent "A" 2 1; Orchestrator.mkAgent "C" 5 0]
    1%nat (Orchestrator.mkAgent "A" 2 1) eq_refl))).
Defined.

Lemma get_available_agent_None agents :
  Orchestrator.get_available_agent agents = None ↔ Forall saturated agents.
Proof.
  unfold Orchestrator.get_available_agent. rewrite list_find_None.
  apply Forall_proper; [|done]. intros agent. unfold saturated. lia.
Qed.

(** X2: [get_available_agent] returns [None] exactly when every agent of the
    pool is saturated; the empty pool is. *)
Theorem no_available_agent_iff_saturated (agents : list Orchestrator.Agent) :
  Orchestrator.get_available_agent agents = None ↔ Forall saturated agents.
Proof. apply get_available_agent_None. Qed.

Lemma loaded_from_refl agents : Forall2 loaded_from agents agents.
Proof. apply Forall_Forall2_diag, Forall_forall. intros a _. by repeat split. Qed.

Lemma loaded_from_increment agents i agent :
  agents !! i = Some agent →
  Forall2 loaded_from agents (Orchestrator.increment_load i agent agents).
Proof.
  intros Hi. unfold Orchestrator.increment_load.
  rewrite <-(list_insert_id agents i agent Hi) at 1.
  apply Forall2_insert; [apply loaded_from_refl|].
  repeat split; simpl; lia.
Qed.

Lemma loaded_from_trans l1 l2 l3 :
  Forall2 loaded_from l1 l2 → Forall2 loaded_from l2 l3 → Forall2 loaded_from l1 l3.
Proof.
  intros H12. revert l3. induction H12 as [|a b l1 l2 Hab _ IH]; intros l3 H23.
  { by inversion H23. }
  inversion H23 as [|b' c l2' l3' Hbc Hrest]; subst.
  constructor; [|by apply IH].
  destruct Hab as (? & ? & ?), Hbc as (? & ? & ?). repeat split; [congruence..|lia].
Qed.

Lemma loaded_from_spare before after :
  Forall2 loaded_from before after →
  (Orchestrator.spare_capacity after ≤ Orchestrator.spare_capacity before)%Z.
Proof.
  induction 1 as [|a b l1 l2 (_ & Hmax & Hload) _ IH]; simpl; [done|]. lia.
Qed.

Lemma saturated_pool_has_no_spare agents :
  Forall Orchestrator.within_capacity agents → Forall saturated agents →
  Orchestrator.spare_capacity agents = 0%Z.
Proof.
  induction 1 as [|a l Ha _ IH]; intros Hsat; simpl; [done|].
  apply Forall_cons in Hsat as [Hsa Hsl]. rewrite (IH Hsl).
  unfold Orchestrator.within_capacity in Ha. unfold saturated in Hsa. lia.
Qed.

Lemma available_agent_has_spare agents i agent :
  Forall Orchestrator.within_capacity agents →
  agents !! i = Some agent →
  (Orchestrator.current_load agent < Orchestrator.max_concurrent agent)%Z →
  (1 ≤ Orchestrator.spare_capacity agents)%Z.
Proof.
  intros Hcap Hi Hlt.
  pose proof (spare_capacity_nonneg _ (within_capacity_increment _ _ _ Hcap Hi Hlt)) as H.
  rewrite (spare_capacity_increment _ _ _ Hi) in H. lia.
Qed.

Section dispatch_more.
Context {World : Type}.
Context (jit_query_ready : World → World * Orchestrator.query_reply).
Context (jit_issue_claim : string → string → World → World * Orchestrator.claim_reply).

Local Abbreviation dispatch_loop := (Orchestrator.dispatch_loop jit_issue_claim).
Local Abbreviation dispatch_cycle := (Orchestrator.dispatch_cycle jit_query_ready jit_issue_claim).
Local Abbreviation query_ready_issues := (Orchestrator.query_ready_issues jit_query_ready).

Lemma dispatch_loop_loaded_from ranked w agents out n :
  Forall2 loaded_from agents (Orchestrator.pool (dispatch_loop ranked w agents out n)).
Proof.
  revert w agents out n.
  induction ranked as [|issue rest IH]; intros w agents out n; simpl.
  { apply loaded_from_refl. }
  destruct (Orchestrator.get_available_agent agents) as [[i agent]|] eqn:Ha; simpl;
    [|apply loaded_from_refl].
  apply get_available_agent_Some in Ha as [Hi _].
  destruct issue as [v|items|members]; simpl; try apply loaded_from_refl.
  destruct (entry members "id") as [[[| | |issue_id]|items|members']|]; simpl;
    try apply loaded_from_refl.
  unfold Orchestrator.claim_issue.
  destruct (jit_issue_claim _ _ w) as [w' [| |e]]; simpl;
    [|apply IH|apply loaded_from_refl].
  eapply loaded_from_trans; [by apply loaded_from_increment|apply IH].
Qed.

Lemma dispatch_cycle_loaded_from w agents :
  Forall2 loaded_from agents (Orchestrator.pool (dispatch_cycle w agents)).
Proof.
  destruct (dispatch_cycle_cases jit_query_ready jit_issue_claim w agents)
    as [[-> _]|(items & ranked & _ & _ & ->)].
  - apply loaded_from_refl.
  - apply dispatch_loop_loaded_from.
Qed.

(** X3: a cycle, however it ends, changes nothing of the pool but loads, and
    only upwards: the pool it leaves has the same agents in the same order,
    each with its [id] and [max_concurrent], and a load that is not
    smaller. *)
Theorem dispatch_cycle_only_adds_load (w : World) (agents : list Orchestrator.Agent) :
  Forall2 loaded_from agents (Orchestrator.pool (dispatch_cycle w agents)).
Proof. apply dispatch_cycle_loaded_from. Qed.

(** X7: every increment of a load is reported by one [Assigned] line, also
    when the cycle ends in an exception: the capacity the pool loses in a
    cycle is the number of [Assigned] lines the cycle prints. *)
Theorem dispatch_cycle_reports_assignments (w : World) (agents : list Orchestrator.Agent) :
  let r := dispatch_cycle w agents in
  Orchestrator.spare_capacity (Orchestrator.pool r)
  = (Orchestrator.spare_capacity agents - assigned_lines (Orchestrator.printed r))%Z.
Proof.
  cbv zeta. pose proof (query_prints_no_assignment jit_query_ready w) as Hq.
  destruct (dispatch_cycle_cases jit_query_ready jit_issue_claim w agents)
    as [[-> _]|(items & ranked & _ & _ & ->)].
  - simpl. lia.
  - destruct (dispatch_loop_assigned jit_issue_claim ranked
                (query_ready_issues w).1.1 agents (query_ready_issues w).1.2 0%Z)
      as [H1 _].
    lia.
Qed.

Lemma dispatch_loop_all_refused ranked w agents out n :
  (∀ issue_id agent_id w',
     (jit_issue_claim issue_id agent_id w').2 = Orchestrator.ClaimRefused) →
  let r := dispatch_loop ranked w agents out n in
  Orchestrator.pool r = agents ∧ ∀ m, Orchestrator.result r = Returned m → m = n.
Proof.
  intros Hfail. revert w out.
  induction ranked as [|issue rest IH]; intros w out; simpl.
  { split; [done|]. by intros m [= <-]. }
  destruct (Orchestrator.get_available_agent agents) as [[i agent]|]; simpl;
    [|split; [done|]; by intros m [= <-]].
  destruct issue as [v|items|members]; simpl; try (split; [done|]; by intros m).
  destruct (entry members "id") as [[[| | |issue_id]|items|members']|]; simpl;
    try (split; [done|]; by intros m).
  unfold Orchestrator.claim_issue.
  specialize (Hfail issue_id ("agent:" +:+ Orchestrator.id agent) w).
  destruct (jit_issue_claim _ _ w) as [w' reply]; simpl in Hfail; subst reply. simpl.
  apply IH.
Qed.

(** X4: when the store refuses every claim, the cycle leaves the pool as it
    was and a count it returns is 0: a refused claim never adds to a load. *)
Theorem refused_claims_leave_pool (w : World) (agents : list Orchestrator.Agent) :
  (∀ issue_id agent_id w',
     (jit_issue_claim issue_id agent_id w').2 = Orchestrator.ClaimRefused) →
  let r := dispatch_cycle w agents in
  Orchestrator.pool r = agents ∧ ∀ m, Orchestrator.result r = Returned m → m = 0%Z.
Proof.
  intros Hfail. cbv zeta.
  destruct (dispatch_cycle_cases jit_query_ready jit_issue_claim w agents)
    as [[-> Hzero]|(items & ranked & _ & _ & ->)].
  - by split.
  - by apply dispatch_loop_all_refused.
Qed.

Lemma dispatch_loop_all_claimed ranked w agents out n :
  (∀ issue_id agent_id w', (jit_issue_claim issue_id agent_id w').2 = Orchestrator.Claimed) →
  Forall Orchestrator.within_capacity agents →
  Forall Orchestrator.has_string_id ranked →
  Orchestrator.result (dispatch_loop ranked w agents out n)
  = Returned (n + Z.min (Z.of_nat (length ranked)) (Orchestrator.spare_capacity agents))%Z.
Proof.
  intros Hok. revert w agents out n.
  induction ranked as [|issue rest IH]; intros w agents out n Hcap Hids.
  { simpl. pose proof (spare_capacity_nonneg _ Hcap). f_equal. lia. }
  apply Forall_cons in Hids as [(members & s & -> & Hs) Hrest].
  cbn [Orchestrator.dispatch_loop].
  destruct (Orchestrator.get_available_agent agents) as [[i agent]|] eqn:Ha.
  - apply get_available_agent_Some in Ha as [Hi Hlt]. rewrite Hs.
    unfold Orchestrator.claim_issue.
    specialize (Hok s ("agent:" +:+ Orchestrator.id agent) w).
    destruct (jit_issue_claim _ _ w) as [w' reply]; simpl in Hok; subst reply.
    simpl. rewrite IH; [|by apply within_capacity_increment|done].
    rewrite (spare_capacity_increment _ _ _ Hi).
    pose proof (available_agent_has_spare _ _ _ Hcap Hi Hlt).
    f_equal. lia.
  - apply get_available_agent_None in Ha.
    rewrite (saturated_pool_has_no_spare _ Hcap Ha). simpl. f_equal. lia.
Qed.

Lemma dispatch_cycle_ranked w agents items :
  (query_ready_issues w).2 = Returned (JArray items) →
  Forall Orchestrator.rankable items →
  ∃ ranked, ranked ≡ₚ items ∧
    dispatch_cycle w agents
    = dispatch_loop ranked (query_ready_issues w).1.1 agents (query_ready_issues w).1.2 0%Z.
Proof.
  intros Hquery Hrank. unfold Orchestrator.dispatch_cycle.
  destruct (query_ready_issues w) as [[w' out] queried]. simpl in *. subst queried.
  destruct items as [|issue rest]; [by exists []|].
  destruct (sort_by_priority_returns _ Hrank) as [ranked Hsort].
  exists ranked. split; [by apply sort_by_priority_returned in Hsort as [? _]|].
  simpl. by rewrite Hsort.
Qed.

(** X5: when the pool starts within capacity, the query returns a list of
    issues that can be ranked and have string [id]s, and the store accepts
    every claim, the cycle assigns as many issues as the smaller of the
    number of ready issues and the spare capacity of the pool: it stops only
    when the issues or the capacity run out. *)
Theorem accepted_claims_fill_capacity (w : World) (agents : list Orchestrator.Agent)
    (items : list json) :
  (∀ issue_id agent_id w', (jit_issue_claim issue_id agent_id w').2 = Orchestrator.Claimed) →
  Forall Orchestrator.within_capacity agents →
  (query_ready_issues w).2 = Returned (JArray items) →
  Forall Orchestrator.rankable items →
  Forall Orchestrator.has_string_id items →
  Orchestrator.result (dispatch_cycle w agents)
  = Returned (Z.min (Z.of_nat (length items)) (Orchestrator.spare_capacity agents)).
Proof.
  intros Hok Hcap Hquery Hrank Hids.
  destruct (dispatch_cycle_ranked w agents items Hquery Hrank) as (ranked & Hperm & ->).
  rewrite (dispatch_loop_all_claimed _ _ agents _ 0%Z Hok Hcap) by (by rewrite Hperm).
  by rewrite (Permutation_length Hperm).
Qed.

(** X6: with every agent saturated and a query that returns a list of issues
    that can be ranked, the cycle returns 0 and ends as the query left
    things: no [id] is looked at, so that an issue without one does no harm,
    no claim is made, and the pool is untouched. *)
Theorem saturated_pool_claims_nothing (w : World) (agents : list Orchestrator.Agent)
    (items : list json) :
  Forall saturated agents →
  (query_ready_issues w).2 = Returned (JArray items) →
  Forall Orchestrator.rankable items →
  dispatch_cycle w agents
  = Orchestrator.mkCycle (query_ready_issues w).1.1 agents (query_ready_issues w).1.2
      (Returned 0%Z).
Proof.
  intros Hsat Hquery Hrank. apply get_available_agent_None in Hsat.
  destruct (dispatch_cycle_ranked w agents items Hquery Hrank) as (ranked & _ & ->).
  destruct ranked as [|issue rest]; [done|].
  cbn [Orchestrator.dispatch_loop]. by rewrite Hsat.
Qed.

Lemma dispatch_loop_returns ranked w agents out n :
  (∀ issue_id agent_id w' e,
     (jit_issue_claim issue_id agent_id w').2 ≠ Orchestrator.ClaimRaised e) →
  Forall Orchestrator.has_string_id ranked →
  ∃ m, Orchestrator.result (dispatch_loop ranked w agents out n) = Returned m.
Proof.
  intros Hclaim. revert w agents out n.
  induction ranked as [|issue rest IH]; intros w agents out n Hids; simpl; [by eexists|].
  apply Forall_cons in Hids as [(members & s & -> & Hs) Hrest].
  destruct (Orchestrator.get_available_agent agents) as [[i agent]|]; simpl; [|by eexists].
  rewrite Hs. unfold Orchestrator.claim_issue.
  pose proof (Hclaim s ("agent:" +:+ Orchestrator.id agent) w) as Hne.
  destruct (jit_issue_claim _ _ w) as [w' [| |e]]; simpl in *;
    [by apply IH|by apply IH|by destruct (Hne e)].
Qed.

(** X26: the cycle returns a count when the query returns a list of issues
    that can be ranked and have string [id]s and no claim command raises
    anything but [CalledProcessError]: refused claims, lost races say, never
    stop it. *)
Theorem dispatch_cycle_returns (w : World) (agents : list Orchestrator.Agent)
    (items : list json) :
  (∀ issue_id agent_id w' e,
     (jit_issue_claim issue_id agent_id w').2 ≠ Orchestrator.ClaimRaised e) →
  (query_ready_issues w).2 = Returned (JArray items) →
  Forall Orchestrator.rankable items →
  Forall Orchestrator.has_string_id items →
  ∃ m, Orchestrator.result (dispatch_cycle w agents) = Returned m.
Proof.
  intros Hclaim Hquery Hrank Hids.
  destruct (dispatch_cycle_ranked w agents items Hquery Hrank) as (ranked & Hperm & ->).
  apply dispatch_loop_returns; [done|]. by rewrite Hperm.
Qed.

(** X27: one ready issue that cannot be ranked ends the cycle before any
    claim.  When the query returns a list in which an issue is not a [dict],
    or has an array or an object for its priority, and the issues before it
    can be ranked, the cycle ends with the exception of that issue's key,
    with the pool untouched and nothing printed but the query's lines. *)
Theorem unrankable_issue_ends_cycle (w : World) (agents : list Orchestrator.Agent)
    (pre post : list json) (issue : json) (e : exn) :
  (query_ready_issues w).2 = Returned (JArray (pre ++ issue :: post)) →
  Forall Orchestrator.rankable pre →
  Orchestrator.sort_key issue = Raised e →
  dispatch_cycle w agents
  = Orchestrator.mkCycle (query_ready_issues w).1.1 agents (query_ready_issues w).1.2
      (Raised e).
Proof.
  intros Hquery Hpre Hissue. unfold Orchestrator.dispatch_cycle.
  destruct (query_ready_issues w) as [[w' out] queried]. simpl in *. subst queried.
  assert (json_truthy (JArray (pre ++ issue :: post)) = true) as ->.
  { by destruct pre. }
  unfold Orchestrator.sort_by_priority.
  by rewrite (sort_keys_raises pre issue post e Hpre Hissue).
Qed.

Lemma journalled_query_keeps_journal (s : World * Orchestrator.journal) :
  (Orchestrator.query_ready_issues (Orchestrator.journalled_query jit_query_ready) s).1.1.2
  = s.2.
Proof.
  unfold Orchestrator.query_ready_issues, Orchestrator.journalled_query.
  destruct (jit_query_ready s.1) as [w' [| |[v|items|members]|e]]; done.
Qed.

Lemma journalled_claim_unfold issue_id agent_id (w : World) (j : Orchestrator.journal) :
  Orchestrator.journalled_claim jit_issue_claim issue_id agent_id (w, j)
  = (((jit_issue_claim issue_id agent_id w).1,
      j ++ [(issue_id, agent_id, (jit_issue_claim issue_id agent_id w).2)]),
     (jit_issue_claim issue_id agent_id w).2).
Proof.
  unfold Orchestrator.journalled_claim. simpl.
  by destruct (jit_issue_claim issue_id agent_id w).
Qed.

Lemma journalled_loop ranked w j agents out n :
  let r := Orchestrator.dispatch_loop (Orchestrator.journalled_claim jit_issue_claim)
             ranked (w, j) agents out n in
  ∃ tried rest sent,
    ranked = tried ++ rest ∧
    (Orchestrator.world r).2 = j ++ sent ∧
    Some <$> Orchestrator.claimed_ids sent = Orchestrator.string_id <$> tried ∧
    Orchestrator.spare_capacity (Orchestrator.pool r)
    = (Orchestrator.spare_capacity agents
       - Z.of_nat (length (Orchestrator.accepted sent)))%Z ∧
    ∀ m, Orchestrator.result r = Returned m →
         m = (n + Z.of_nat (length (Orchestrator.accepted sent)))%Z.
Proof.
  cbv zeta. revert w j agents out n.
  induction ranked as [|issue rest IH]; intros w j agents out n.
  { exists [], [], []. simpl. rewrite app_nil_r.
    repeat split; [lia|]. intros m [= <-]. lia. }
  assert (Hstop : ∀ res,
    (∀ m, res = Returned m → m = n) →
    ∃ tried rest' sent,
      issue :: rest = tried ++ rest' ∧
      (Orchestrator.world (Orchestrator.mkCycle (w, j) agents out res)).2 = j ++ sent ∧
      Some <$> Orchestrator.claimed_ids sent = Orchestrator.string_id <$> tried ∧
      Orchestrator.spare_capacity (Orchestrator.pool (Orchestrator.mkCycle (w, j) agents out res))
      = (Orchestrator.spare_capacity agents
         - Z.of_nat (length (Orchestrator.accepted sent)))%Z ∧
      ∀ m, Orchestrator.result (Orchestrator.mkCycle (w, j) agents out res) = Returned m →
           m = (n + Z.of_nat (length (Orchestrator.accepted sent)))%Z).
  { intros res Hres. exists [], (issue :: rest), []. simpl. rewrite app_nil_r.
    repeat split; [lia|]. intros m Hm. rewrite (Hres m Hm). lia. }
  cbn [Orchestrator.dispatch_loop].
  destruct (Orchestrator.get_available_agent agents) as [[i agent]|] eqn:Ha;
    [|apply Hstop; by intros m [= <-]].
  apply get_available_agent_Some in Ha as [Hi _].
  destruct issue as [v|items|members]; try (apply Hstop; by intros m).
  destruct (entry members "id") as [[[| | |issue_id]|items|members']|] eqn:Hid;
    try (apply Hstop; by intros m).
  unfold Orchestrator.claim_issue. rewrite journalled_claim_unfold.
  destruct (jit_issue_claim issue_id ("agent:" +:+ Orchestrator.id agent) w)
    as [w' reply] eqn:Hclaim.
  assert (Hhead : Orchestrator.string_id (JObject members) = Some issue_id)
    by (simpl; by rewrite Hid).
  destruct reply as [| |e]; cbn [fst snd].
  - match goal with |- context [Orchestrator.dispatch_loop _ rest (w', ?j') ?a ?o ?k] =>
      destruct (IH w' j' a o k) as (tried & rest' & sent & -> & Hj & Hids & Hspare & Hm) end.
    exists (JObject members :: tried), rest',
      ((issue_id, "agent:" +:+ Orchestrator.id agent, Orchestrator.Claimed) :: sent).
    split; [done|]. split; [by rewrite Hj, <- app_assoc|].
    split; [unfold Orchestrator.claimed_ids in Hids |- *; by rewrite !fmap_cons, Hids, Hhead|].
    rewrite (spare_capacity_increment _ _ _ Hi) in Hspare.
    change (Orchestrator.accepted ((issue_id, _, Orchestrator.Claimed) :: sent))
      with ((issue_id, "agent:" +:+ Orchestrator.id agent, Orchestrator.Claimed)
            :: Orchestrator.accepted sent).
    rewrite length_cons. split; [lia|]. intros m Hres. specialize (Hm m Hres). lia.
  - match goal with |- context [Orchestrator.dispatch_loop _ rest (w', ?j') ?a ?o ?k] =>
      destruct (IH w' j' a o k) as (tried & rest' & sent & -> & Hj & Hids & Hspare & Hm) end.
    exists (JObject members :: tried), rest',
      ((issue_id, "agent:" +:+ Orchestrator.id agent, Orchestrator.ClaimRefused) :: sent).
    split; [done|]. split; [by rewrite Hj, <- app_assoc|].
    split; [unfold Orchestrator.claimed_ids in Hids |- *; by rewrite !fmap_cons, Hids, Hhead|].
    change (Orchestrator.accepted ((issue_id, _, Orchestrator.ClaimRefused) :: sent))
      with (Orchestrator.accepted sent).
    split; [lia|]. exact Hm.
  - exists [JObject members], rest,
      [(issue_id, "agent:" +:+ Orchestrator.id agent, Orchestrator.ClaimRaised e)].
    split; [done|]. split; [done|].
    split; [unfold Orchestrator.claimed_ids; by rewrite !fmap_cons, Hhead|].
    simpl. split; [lia|]. by intros m.
Qed.


End dispatch_more.

(** X28 on the store of the lost race: two commands are sent, for [i2] and
    then for [i1], the store accepts the second, and the count is 1. *)
Example cycle_counts_accepted_claims_example :
  let r := Orchestrator.dispatch_cycle
             (Orchestrator.journalled_query Orchestrator.scripted_query)
             (Orchestrator.journalled_claim Orchestrator.scripted_claim)
             (Examples.store_with [Examples.issue_i1; Examples.issue_i2] [false; true], [])
             Examples.pool_AB in
  (Orchestrator.world r).2
  = [("i2", "agent:A", Orchestrator.ClaimRefused); ("i1", "agent:A", Orchestrator.Claimed)] ∧
  Orchestrator.result r = Returned 1%Z.
Proof. evaluated. Qed.

(** X4 on a store that returns two ready issues and refuses every claim. *)
Lemma refused_claims_leave_pool_witness :
  let query (w : unit) :=
    (w, Orchestrator.Data
          (JObject [("issues", JArray [Examples.issue_i1; Examples.issue_i2])])) in
  let claim (issue_id agent_id : string) (w : unit) := (w, Orchestrator.ClaimRefused) in
  (∀ issue_id agent_id w', (claim issue_id agent_id w').2 = Orchestrator.ClaimRefused) ∧
  Orchestrator.dispatch_cycle query claim () Examples.pool_AB
  = Orchestrator.mkCycle () Examples.pool_AB
      [Orchestrator.FailedToClaim "i2" "agent:A"; Orchestrator.FailedToClaim "i1" "agent:A"]
      (Returned 0%Z) ∧
  Orchestrator.pool (Orchestrator.dispatch_cycle query claim () Examples.pool_AB)
  = Examples.pool_AB.
Proof.
  split; [done|]. split; [reflexivity|].
  exact (proj1 (refused_claims_leave_pool
    (λ w : unit, (w, Orchestrator.Data
                       (JObject [("issues", JArray [Examples.issue_i1; Examples.issue_i2])])))
    (λ (_ _ : string) (w : unit), (w, Orchestrator.ClaimRefused)) () Examples.pool_AB
    (λ _ _ _, eq_refl))).
Defined.

Lemma examples_rankable :
  Forall Orchestrator.rankable [Examples.issue_i1; Examples.issue_i2].
Proof.
  repeat constructor; eexists; (split; [reflexivity|]); right; by eexists.
Qed.

Lemma examples_have_string_id :
  Forall Orchestrator.has_string_id [Examples.issue_i1; Examples.issue_i2].
Proof. repeat constructor; eexists _, _; (split; reflexivity). Qed.

(** X5 on a pool with three free places and two ready issues. *)
Lemma accepted_claims_fill_capacity_witness :
  let query (w : unit) :=
    (w, Orchestrator.Data
          (JObject [("issues", JArray [Examples.issue_i1; Examples.issue_i2])])) in
  let claim (issue_id agent_id : string) (w : unit) := (w, Orchestrator.Claimed) in
  let agents := [Orchestrator.mkAgent "A" 2 0; Orchestrator.mkAgent "B" 1 0] in
  Forall Orchestrator.within_capacity agents ∧
  (Orchestrator.query_ready_issues query ()).2
  = Returned (JArray [Examples.issue_i1; Examples.issue_i2]) ∧
  Orchestrator.result (Orchestrator.dispatch_cycle query claim () agents) = Returned 2%Z.
Proof.
  assert (Hcap : Forall Orchestrator.within_capacity
                   [Orchestrator.mkAgent "A" 2 0; Orchestrator.mkAgent "B" 1 0]).
  { repeat constructor; unfold Orchestrator.within_capacity; simpl; lia. }
  split; [exact Hcap|]. split; [reflexivity|].
  exact (accepted_claims_fill_capacity
    (λ w : unit, (w, Orchestrator.Data
                       (JObject [("issues", JArray [Examples.issue_i1; Examples.issue_i2])])))
    (λ (_ _ : string) (w : unit), (w, Orchestrator.Claimed)) ()
    [Orchestrator.mkAgent "A" 2 0; Orchestrator.mkAgent "B" 1 0]
    [Examples.issue_i1; Examples.issue_i2]
    (λ _ _ _, eq_refl) Hcap eq_refl examples_rankable examples_have_string_id).
Defined.

(** X6 on a full pool and a ready list that starts with an issue without
    [id]. *)
Lemma saturated_pool_claims_nothing_witness :
  let agents := [Orchestrator.mkAgent "A" 1 1; Orchestrator.mkAgent "B" 2 2] in
  let w := Examples.store_with [Examples.issue_without_id; Examples.issue_i1] [true] in
  Forall saturated agents ∧
  Forall Orchestrator.rankable [Examples.issue_without_id; Examples.issue_i1] ∧
  Examples.run_cycle w agents = Orchestrator.mkCycle w agents [] (Returned 0%Z).
Proof.
  assert (Hsat : Forall saturated [Orchestrator.mkAgent "A" 1 1; Orchestrator.mkAgent "B" 2 2]).
  { repeat constructor; unfold saturated; simpl; lia. }
  assert (Hrank : Forall Orchestrator.rankable [Examples.issue_without_id; Examples.issue_i1]).
  { repeat constructor; eexists; (split; [reflexivity|]); right; by eexists. }
  split; [exact Hsat|]. split; [exact Hrank|].
  exact (saturated_pool_claims_nothing Orchestrator.scripted_query Orchestrator.scripted_claim
    (Examples.store_with [Examples.issue_without_id; Examples.issue_i1] [true])
    [Orchestrator.mkAgent "A" 1 1; Orchestrator.mkAgent "B" 2 2]
    [Examples.issue_without_id; Examples.issue_i1] Hsat eq_refl Hrank).
Defined.

(** X26 on the store of the scenario, which refuses or accepts and never
    raises. *)
Lemma dispatch_cycle_returns_witness :
  (∀ issue_id agent_id w' e,
     (Orchestrator.scripted_claim issue_id agent_id w').2 ≠ Orchestrator.ClaimRaised e) ∧
  ∃ m, Orchestrator.result
         (Examples.run_cycle
            (Examples.store_with [Examples.issue_i1; Examples.issue_i2] [false; true])
            Examples.pool_AB) = Returned m.
Proof.
  assert (H : ∀ issue_id agent_id w' e,
            (Orchestrator.scripted_claim issue_id agent_id w').2 ≠ Orchestrator.ClaimRaised e).
  { intros issue_id agent_id w' e. unfold Orchestrator.scripted_claim.
    destruct (Orchestrator.claim_replies w') as [|[|] rest]; done. }
  split; [exact H|].
  exact (dispatch_cycle_returns Orchestrator.scripted_query Orchestrator.scripted_claim
    (Examples.store_with [Examples.issue_i1; Examples.issue_i2] [false; true])
    Examples.pool_AB [Examples.issue_i1; Examples.issue_i2]
    H eq_refl examples_rankable examples_have_string_id).
Defined.

(** X27 on a ready list whose second issue has an array for its priority:
    the cycle ends with [TypeError] and the critical issue before it is not
    claimed although agent [A] is free. *)
Lemma unrankable_issue_ends_cycle_witness :
  let w := Examples.store_with [Examples.issue_i2; Examples.issue_listed; Examples.issue_i1]
             [true; true] in
  Orchestrator.sort_key Examples.issue_listed = Raised TypeError ∧
  Examples.run_cycle w Examples.pool_AB
  = Orchestrator.mkCycle w Examples.pool_AB [] (Raised TypeError).
Proof.
  split; [reflexivity|].
  exact (unrankable_issue_ends_cycle Orchestrator.scripted_query Orchestrator.scripted_claim
    (Examples.store_with [Examples.issue_i2; Examples.issue_listed; Examples.issue_i1]
       [true; true])
    Examples.pool_AB [Examples.issue_i2] [Examples.issue_i1] Examples.issue_listed TypeError
    eq_refl ltac:(repeat constructor; eexists; (split; [reflexivity|]); right; by eexists)
    eq_refl).
Defined.

(** ** The daemon *)

Lemma assigned_total_app out1 out2 :
  Daemon.assigned_total (out1 ++ out2)
  = (Daemon.assigned_total out1 + Daemon.assigned_total out2)%Z.
Proof.
  unfold Daemon.assigned_total. induction out1 as [|l out1 IH]; simpl; [lia|].
  destruct l; lia.
Qed.

Lemma assigned_total_from_cycle out :
  Daemon.assigned_total (Daemon.FromCycle <$> out) = 0%Z.
Proof. induction out as [|m out IH]; [done|]. exact IH. Qed.

Section daemon_facts.
Context {World : Type}.
Context (jit_query_ready : World → World * Orchestrator.query_reply).
Context (jit_issue_claim : string → string → World → World * Orchestrator.claim_reply).
Context (poll_interval : Z).

Local Abbreviation dispatch_cycle := (Orchestrator.dispatch_cycle jit_query_ready jit_issue_claim).
Local Abbreviation daemon_loop :=
  (Daemon.daemon_loop jit_query_ready jit_issue_claim poll_interval).
Local Abbreviation run_daemon :=
  (Daemon.run_daemon jit_query_ready jit_issue_claim poll_interval).

(** One cycle, for the daemon: the pool stays within capacity and loses no
    less capacity than the count the cycle returns. *)
Lemma dispatch_cycle_capacity w agents :
  Forall Orchestrator.within_capacity agents →
  let r := dispatch_cycle w agents in
  Forall Orchestrator.within_capacity (Orchestrator.pool r) ∧
  (Orchestrator.spare_capacity (Orchestrator.pool r) ≤ Orchestrator.spare_capacity agents)%Z ∧
  ∀ m, Orchestrator.result r = Returned m →
       (0 ≤ m)%Z ∧
       Orchestrator.spare_capacity (Orchestrator.pool r)
       = (Orchestrator.spare_capacity agents - m)%Z.
Proof.
  intros Hcap. cbv zeta.
  destruct (dispatch_cycle_cases jit_query_ready jit_issue_claim w agents)
    as [[-> Hzero]|(items & ranked & _ & _ & ->)].
  { simpl. split; [done|]. split; [lia|]. intros m Hm. rewrite (Hzero m Hm). lia. }
  match goal with |- context [Orchestrator.dispatch_loop _ ranked ?w' _ ?out _] =>
    destruct (dispatch_loop_bounds jit_issue_claim ranked w' agents out 0%Z Hcap) as [Hpool Hm];
    pose proof (dispatch_loop_loaded_from jit_issue_claim ranked w' agents out 0%Z) as Hload
  end.
  split; [done|]. split.
  - by apply loaded_from_spare.
  - intros m Hres. destruct (Hm m Hres) as [? ?]. split; lia.
Qed.

Lemma assigned_total_reported out m :
  (0 ≤ m)%Z →
  Daemon.assigned_total (if (0 <? m)%Z then out ++ [Daemon.AssignedIssues m] else out)
  = (Daemon.assigned_total out + m)%Z.
Proof.
  intros Hm. destruct (0 <? m)%Z eqn:Em.
  - rewrite assigned_total_app. simpl. lia.
  - apply Z.ltb_ge in Em. lia.
Qed.

Lemma daemon_loop_capacity sleeps w agents out :
  Forall Orchestrator.within_capacity agents →
  let d := daemon_loop sleeps w agents out in
  Forall Orchestrator.within_capacity (Daemon.pool d) ∧
  (0 ≤ Daemon.assigned_total (Daemon.printed d) - Daemon.assigned_total out
     ≤ Orchestrator.spare_capacity agents - Orchestrator.spare_capacity (Daemon.pool d))%Z ∧
  ((∀ e, Daemon.ended d ≠ Daemon.Escaped e) →
   Orchestrator.spare_capacity (Daemon.pool d)
   = (Orchestrator.spare_capacity agents
      - (Daemon.assigned_total (Daemon.printed d) - Daemon.assigned_total out))%Z).
Proof.
  revert w agents out.
  induction sleeps as [|sleeps IH]; intros w agents out Hcap;
    cbn [Daemon.daemon_loop];
    destruct (dispatch_cycle_capacity w agents Hcap) as (Hpool & Hle & Hm);
    set (out1 := out ++ (Daemon.FromCycle <$> Orchestrator.printed (dispatch_cycle w agents)));
    assert (Hout1 : Daemon.assigned_total out1 = Daemon.assigned_total out)
      by (unfold out1; rewrite assigned_total_app, assigned_total_from_cycle; lia);
    destruct (Orchestrator.result (dispatch_cycle w agents)) as [m|e] eqn:Hres.
  - destruct (Hm m eq_refl) as [Hm0 Hspare].
    pose proof (assigned_total_reported out1 m Hm0) as Hout2.
    destruct (poll_interval <? 0)%Z; cbn [Daemon.pool Daemon.printed Daemon.ended];
      rewrite ?assigned_total_app, Hout2; simpl;
      (split; [done|]; split; intros; lia).
  - cbn [Daemon.pool Daemon.printed Daemon.ended].
    split; [done|]. split; [lia|]. intros Hne. by destruct (Hne e).
  - destruct (Hm m eq_refl) as [Hm0 Hspare].
    pose proof (assigned_total_reported out1 m Hm0) as Hout2.
    destruct (poll_interval <? 0)%Z.
    { cbn [Daemon.pool Daemon.printed Daemon.ended].
      split; [done|]. split; intros; lia. }
    specialize (IH (Orchestrator.world (dispatch_cycle w agents))
                   (Orchestrator.pool (dispatch_cycle w agents))
                   (if (0 <? m)%Z then out1 ++ [Daemon.AssignedIssues m] else out1) Hpool).
    cbv zeta in IH. rewrite Hout2 in IH. destruct IH as (IH1 & IH2 & IH3).
    split; [done|]. split; [lia|]. intros Hne. specialize (IH3 Hne). lia.
  - cbn [Daemon.pool Daemon.printed Daemon.ended].
    split; [done|]. split; [lia|]. intros Hne. by destruct (Hne e).
Qed.


End daemon_facts.


(** ** Ranking a ranked list *)

Lemma sort_by_key_sorted_id {A} (key : A → Z) l :
  StronglySorted (key_le key) l → sort_by_key key l = l.
Proof.
  induction 1 as [|x l Hl IH Hx]; simpl; [done|]. rewrite IH.
  destruct Hx as [|y l' Hxy _]; simpl; [done|].
  unfold key_le in Hxy. by rewrite (proj2 (Z.leb_le _ _) Hxy).
Qed.

(** X25: when the store returns the ready issues already in priority order,
    the ranking of the cycle leaves the list as it is, the store's order
    among issues of one priority included; and ranking a ranked list again
    returns it unchanged. *)
Theorem ranking_keeps_ranked_order (ready_issues ranked : list json) :
  Orchestrator.sort_by_priority ready_issues = Returned ranked →
  (StronglySorted Orchestrator.rank_le ready_issues → ranked = ready_issues) ∧
  Orchestrator.sort_by_priority ranked = Returned ranked.
Proof.
  unfold Orchestrator.sort_by_priority.
  destruct (Orchestrator.sort_keys ready_issues) as [pairs|e] eqn:Hkeys; [|done].
  intros [= <-]. apply sort_keys_keyed in Hkeys as [<- Hkeyed]. split.
  - intros Hsorted. by rewrite (sort_by_key_sorted_id fst pairs (sorted_keyed _ Hkeyed Hsorted)).
  - assert (Hkeyed' : Forall keyed (sort_by_key fst pairs))
      by (by rewrite (sort_by_key_perm fst pairs)).
    rewrite (sort_keys_of_keyed _ Hkeyed').
    by rewrite (sort_by_key_sorted_id fst _ (sort_by_key_sorted fst pairs)).
Qed.

(** X25 on a list the store returns in priority order, with two issues of
    one priority. *)
Lemma ranking_keeps_ranked_order_witness :
  let ready_issues := [Examples.issue_i2; Examples.issue_i1; Examples.issue_plain;
                       Examples.issue_low] in
  Orchestrator.sort_by_priority ready_issues = Returned ready_issues ∧
  Orchestrator.sort_by_priority
    [Examples.issue_low; Examples.issue_i1; Examples.issue_i2]
  = Returned [Examples.issue_i2; Examples.issue_i1; Examples.issue_low] ∧
  Orchestrator.sort_by_priority [Examples.issue_i2; Examples.issue_i1; Examples.issue_low]
  = Returned [Examples.issue_i2; Examples.issue_i1; Examples.issue_low].
Proof.
  split; [reflexivity|]. split; [reflexivity|].
  exact (proj2 (ranking_keeps_ranked_order
    [Examples.issue_low; Examples.issue_i1; Examples.issue_i2]
    [Examples.issue_i2; Examples.issue_i1; Examples.issue_low] eq_refl)).
Defined.
(** ** Timestamps written to a record *)

Lemma set_timestamps_created c u (issue : dict) :
  Script.set_timestamps c u issue !! "created_at" = Some c.
Proof.
  unfold Script.set_timestamps.
  rewrite lookup_insert_ne by done. apply lookup_insert_eq.
Qed.

Lemma set_timestamps_updated c u (issue : dict) :
  Script.set_timestamps c u issue !! "updated_at" = Some u.
Proof. unfold Script.set_timestamps. apply lookup_insert_eq. Qed.

Lemma set_timestamps_other c u (issue : dict) k :
  k ≠ "created_at" → k ≠ "updated_at" →
  Script.set_timestamps c u issue !! k = issue !! k.
Proof.
  intros Hc Hu. unfold Script.set_timestamps.
  by rewrite !lookup_insert_ne.
Qed.

Lemma get_set_timestamps_id c u (issue : dict) :
  get (Script.set_timestamps c u issue) "id" = get issue "id".
Proof. unfold get. by rewrite set_timestamps_other. Qed.

Lemma get_Some (d : dict) k v : d !! k = Some v → get d k = v.
Proof. unfold get. by intros ->. Qed.

Lemma contains_true (d : dict) k : contains d k = true ↔ is_Some (d !! k).
Proof. unfold contains. apply bool_decide_eq_true. Qed.

Lemma truthy_get_Some (d : dict) k : truthy (get d k) = true → is_Some (d !! k).
Proof. unfold get. by destruct (d !! k). Qed.

(** ** The events of an issue *)

Lemma first_created_elem issue_events :
  truthy (Migrate.first_created issue_events) = true →
  ∃ e, e ∈ issue_events ∧
       py_eq (get e "event_type") (VStr "issue_created") = true ∧
       Migrate.first_created issue_events = get e "timestamp".
Proof.
  induction issue_events as [|e l IH]; simpl; [done|].
  destruct (py_eq (get e "event_type") (VStr "issue_created")) eqn:E.
  - intros _. exists e. split; [left|done].
  - intros H. destruct (IH H) as (e' & ? & ? & ?). exists e'. split; [by right|done].
Qed.

(** In a chronological list no event is later than the last one, and none
    is earlier than the first. *)
Lemma chronological_last epoch issue_events e en :
  chronological epoch issue_events →
  e ∈ issue_events → last issue_events = Some en →
  (epoch (get e "timestamp") ≤ epoch (get en "timestamp"))%Z.
Proof.
  unfold chronological. induction 1 as [|x l Hl IH Hx]; intros He Hlast; [by inversion He|].
  destruct l as [|y l'].
  - apply list_elem_of_singleton in He as ->. simpl in Hlast. by simplify_eq.
  - change (last (x :: y :: l')) with (last (y :: l')) in Hlast.
    apply elem_of_cons in He as [->|He]; [|by apply IH].
    rewrite Forall_forall in Hx. apply Hx.
    by eapply last_Some_elem_of.
Qed.

Lemma chronological_head epoch issue_events e0 :
  chronological epoch issue_events →
  head issue_events = Some e0 →
  Forall (λ e, (epoch (get e0 "timestamp") ≤ epoch (get e "timestamp"))%Z) issue_events.
Proof.
  unfold chronological. destruct 1 as [|x l Hl Hx]; intros Hhead; simplify_eq/=.
  constructor; [lia|done].
Qed.

(** ** What [migrate_issue] writes *)

Lemma migrate_issue_written events dry_run f issue' :
  Script.written (Migrate.migrate_issue events dry_run f) = Some issue' →
  let issue := Script.content f in
  let found := Migrate.find_timestamps_from_events (get issue "id") events in
  dry_run = false ∧
  truthy (get issue "id") = true ∧
  contains issue "created_at" && contains issue "updated_at" = false ∧
  issue' = Script.set_timestamps
             (if truthy found.1 then found.1 else VStr (Script.mtime f))
             (if truthy found.2 then found.2 else VStr (Script.mtime f))
             issue.
Proof.
  unfold Migrate.migrate_issue, Migrate.add_timestamps, Migrate.get_file_mtime_rfc3339.
  destruct (truthy (get (Script.content f) "id")); simpl; [|done].
  destruct (contains _ "created_at" && contains _ "updated_at"); simpl; [done|].
  destruct (Migrate.find_timestamps_from_events _ events) as [c0 u0]; simpl.
  destruct (truthy c0), (slice8 _), dry_run; simpl; try done; by intros [= <-].
Qed.

Lemma migrate_issue_dry_run events f :
  Script.written (Migrate.migrate_issue events true f) = None.
Proof.
  destruct (Script.written _) as [issue'|] eqn:E; [|done].
  by apply migrate_issue_written in E as [? _].
Qed.

(** A record that has both entries, or no [id], is left alone, whatever the
    mode and the modification time. *)
Lemma migrate_issue_skips events dry_run f :
  truthy (get (Script.content f) "id") = false ∨
  (is_Some (Script.content f !! "created_at") ∧ is_Some (Script.content f !! "updated_at")) →
  Script.written (Migrate.migrate_issue events dry_run f) = None ∧
  Script.result (Migrate.migrate_issue events dry_run f) = Returned false.
Proof.
  unfold Migrate.migrate_issue. intros [Hid|[Hc Hu]].
  - by rewrite Hid.
  - destruct (truthy _); simpl; [|done].
    apply contains_true in Hc, Hu. by rewrite Hc, Hu.
Qed.

Lemma migrate_issue_returned_false events dry_run f :
  Script.result (Migrate.migrate_issue events dry_run f) = Returned false →
  truthy (get (Script.content f) "id") = false ∨
  (is_Some (Script.content f !! "created_at") ∧ is_Some (Script.content f !! "updated_at")).
Proof.
  unfold Migrate.migrate_issue, Migrate.add_timestamps.
  destruct (truthy (get (Script.content f) "id")); simpl; [|by left].
  destruct (contains _ "created_at" && contains _ "updated_at") eqn:E; simpl.
  - intros _. right. apply andb_true_iff in E as [Hc Hu].
    by rewrite <-!contains_true.
  - destruct (Migrate.find_timestamps_from_events _ events) as [c0 u0]; simpl.
    destruct (truthy c0), (slice8 _), dry_run; simpl; done.
Qed.

Lemma migrate_issue_returned_true events f :
  Script.result (Migrate.migrate_issue events false f) = Returned true →
  ∃ c u, Script.written (Migrate.migrate_issue events false f)
         = Some (Script.set_timestamps c u (Script.content f)).
Proof.
  unfold Migrate.migrate_issue, Migrate.add_timestamps.
  destruct (truthy (get (Script.content f) "id")); simpl; [|done].
  destruct (contains _ "created_at" && contains _ "updated_at"); simpl; [done|].
  destruct (Migrate.find_timestamps_from_events _ events) as [c0 u0]; simpl.
  destruct (truthy c0), (slice8 _); simpl; try done; intros _; by eexists _, _.
Qed.

(** ** What [fix_issue_timestamps] writes *)

Lemma negb_orb_false (a b : bool) : negb a || negb b = false → a = true ∧ b = true.
Proof. by destruct a, b. Qed.

(** Case analysis on every test of [fix_issue_timestamps]. *)
Ltac fix_cases :=
  unfold Fix.fix_issue_timestamps, Fix.report;
  repeat (case_match; simpl in *; try done);
  repeat match goal with
         | H : negb _ || negb _ = false |- _ => apply negb_orb_false in H as [? ?]
         | H : negb _ = false |- _ => apply negb_false_iff in H
         end.

Lemma fix_issue_written events dry_run f issue' :
  Script.written (Fix.fix_issue_timestamps events dry_run f) = Some issue' →
  let issue := Script.content f in
  let issue_events := Script.events_of (get issue "id") events in
  dry_run = false ∧
  truthy (get issue "id") = true ∧
  truthy (get issue "created_at") = true ∧
  truthy (get issue "updated_at") = true ∧
  ∃ e0 en,
    head issue_events = Some e0 ∧ last issue_events = Some en ∧
    truthy (get e0 "timestamp") = true ∧ truthy (get en "timestamp") = true ∧
    py_eq (get issue "created_at") (get e0 "timestamp")
    && py_eq (get issue "updated_at") (get en "timestamp") = false ∧
    issue' = Script.set_timestamps (get e0 "timestamp") (get en "timestamp") issue.
Proof.
  fix_cases; intros [= <-]; repeat (split; [done|]);
    eexists _, _; repeat (split; [done|]); done.
Qed.

(** The live call returns [False] only on a path that comes before the
    dry-run test: the dry-run call then does the same, and nothing is
    written. *)
Lemma fix_issue_returned_false events dry_run f :
  Script.result (Fix.fix_issue_timestamps events false f) = Returned false →
  Script.written (Fix.fix_issue_timestamps events dry_run f) = None ∧
  Script.result (Fix.fix_issue_timestamps events dry_run f) = Returned false.
Proof. destruct dry_run; fix_cases. Qed.

(** The record that the live call writes is one on which a further call, in
    either mode and whatever the modification time, returns [False] at the
    [# Already correct] test. *)
Lemma fix_issue_returned_true events f :
  Script.result (Fix.fix_issue_timestamps events false f) = Returned true →
  ∃ issue', Script.written (Fix.fix_issue_timestamps events false f) = Some issue' ∧
    ∀ dry_run mt,
      Fix.fix_issue_timestamps events dry_run (Script.mkFile issue' mt)
      = Script.mkRun None [] (Returned false).
Proof.
  intros Hret.
  assert (∃ issue', Script.written (Fix.fix_issue_timestamps events false f) = Some issue')
    as [issue' Hw].
  { revert Hret. fix_cases. by eexists. }
  exists issue'. split; [done|]. intros dry_run mt.
  apply fix_issue_written in Hw
    as (_ & Hid & _ & _ & e0 & en & Hhead & Hlast & Ht0 & Htn & _ & ->).
  unfold Fix.fix_issue_timestamps. simpl.
  rewrite get_set_timestamps_id, Hid. simpl.
  rewrite (get_Some _ _ _ (set_timestamps_created _ _ _)).
  rewrite (get_Some _ _ _ (set_timestamps_updated _ _ _)).
  rewrite Ht0, Htn, Hhead, Hlast. simpl.
  rewrite Ht0, Htn. simpl. by rewrite !py_eq_refl.
Qed.

(** A dry run writes no file. *)
Lemma dry_run_writes_nothing m events f :
  Script.written (reconcile_issue m events true f) = None.
Proof.
  destruct m; simpl; [apply migrate_issue_dry_run|].
  destruct (Script.written _) as [issue'|] eqn:E; [|done].
  by apply fix_issue_written in E as [? _].
Qed.

(** ** Malformed records in the reconciler *)

(** [load_events] keeps the events of the lines that decode, in the order of
    the log, and goes on after a line that does not. *)
Lemma read_lines_decoded strip json_loads lines events out :
  (Script.read_lines strip json_loads lines events out).1
  = events ++ omap (Script.decoded strip json_loads) lines.
Proof.
  revert events out. induction lines as [|line rest IH]; intros events out; simpl.
  { by rewrite app_nil_r. }
  unfold Script.decoded. simpl.
  destruct (strip line) as [|c s] eqn:Hline; [apply IH|].
  destruct (json_loads (String c s)) as [e|]; rewrite IH; [|done].
  by rewrite <-app_assoc.
Qed.

Lemma load_events_decoded strip json_loads lines :
  (Script.load_events strip json_loads (Some lines)).1
  = omap (Script.decoded strip json_loads) lines.
Proof. apply read_lines_decoded. Qed.

(** A line that is not empty and does not decode costs one warning. *)
Lemma read_lines_unparseable strip json_loads line rest events out :
  truthy (VStr (strip line)) = true → json_loads (strip line) = None →
  Script.read_lines strip json_loads (line :: rest) events out
  = Script.read_lines strip json_loads rest events (out ++ [Script.WarnParseEvent]).
Proof. simpl. by intros -> ->. Qed.

(** An issue record with no identifier is skipped with a warning, in both
    modes, and the pass goes on with the next file. *)
Lemma reconcile_issue_without_id m events dry_run f :
  truthy (get (Script.content f) "id") = false →
  reconcile_issue m events dry_run f = Script.mkRun None [Script.WarnNoId] (Returned false).
Proof.
  intros Hid. destruct m; simpl;
    unfold Migrate.migrate_issue, Fix.fix_issue_timestamps; by rewrite Hid.
Qed.

Lemma process_skips_file_without_id m events dry_run clock issue_file rest st f out n :
  st !! issue_file = Some f →
  truthy (get (Script.content f) "id") = false →
  Script.process (reconcile_issue m events dry_run) clock (issue_file :: rest) st out n
  = Script.process (reconcile_issue m events dry_run) clock rest st
      (out ++ [Script.WarnNoId]) n.
Proof.
  intros Hf Hid. simpl. rewrite Hf.
  by rewrite (reconcile_issue_without_id _ _ _ _ Hid).
Qed.

(** ** Passes that return *)

(** A call returns when the identifier can be printed. *)
Lemma reconcile_issue_returns m events dry_run f :
  Script.printable_id f →
  ∃ b, Script.result (reconcile_issue m events dry_run f) = Returned b.
Proof.
  intros [Hid|[s Hs]].
  { rewrite (reconcile_issue_without_id _ _ _ _ Hid). by eexists. }
  destruct m; simpl.
  - unfold Migrate.migrate_issue, Migrate.add_timestamps. rewrite Hs. simpl.
    repeat (case_match; simpl; try (eexists; reflexivity)).
  - unfold Fix.fix_issue_timestamps, Fix.report. rewrite Hs. simpl.
    repeat (case_match; simpl; try (eexists; reflexivity)).
Qed.

(** A call that writes keeps the identifier. *)
Lemma reconcile_issue_keeps_id m events dry_run f issue' mt :
  Script.written (reconcile_issue m events dry_run f) = Some issue' →
  Script.printable_id f → Script.printable_id (Script.mkFile issue' mt).
Proof.
  intros Hw Hid. unfold Script.printable_id in *. simpl.
  destruct m; simpl in Hw.
  - apply migrate_issue_written in Hw as (_ & _ & _ & ->).
    by rewrite get_set_timestamps_id.
  - apply fix_issue_written in Hw as (_ & _ & _ & _ & e0 & en & _ & _ & _ & _ & _ & ->).
    by rewrite get_set_timestamps_id.
Qed.

(** A pass over files that exist, with identifiers that can be printed,
    returns a count. *)
Lemma process_returns m events dry_run clock issue_files st out n :
  (∀ p, p ∈ issue_files → ∃ f, st !! p = Some f ∧ Script.printable_id f) →
  ∃ st1 out1 k,
    Script.process (reconcile_issue m events dry_run) clock issue_files st out n
    = (st1, out1, Returned k).
Proof.
  revert st out n.
  induction issue_files as [|issue_file rest IH]; intros st out n Hall; simpl.
  { by eexists _, _, _. }
  destruct (Hall issue_file) as (f & Hf & Hid); [by left|]. rewrite Hf.
  destruct (reconcile_issue_returns m events dry_run f Hid) as [b Hb]. rewrite Hb.
  assert (∀ p, p ∈ rest →
            ∃ g, match Script.written (reconcile_issue m events dry_run f) with
                 | Some issue => <[issue_file := Script.mkFile issue (clock issue_file)]> st
                 | None => st
                 end !! p = Some g ∧ Script.printable_id g) as Hrest.
  { intros p Hp. destruct (Script.written _) as [issue'|] eqn:Hw; [|apply Hall; by right].
    destruct (decide (p = issue_file)) as [->|Hne].
    - eexists. rewrite lookup_insert_eq. split; [done|].
      by eapply reconcile_issue_keeps_id.
    - rewrite lookup_insert_ne by done. apply Hall. by right. }
  destruct b; by apply IH.
Qed.

(** A dry run leaves every issue file as it is. *)
Lemma dry_run_pass_changes_nothing m events clock issue_files st out n :
  (Script.process (reconcile_issue m events true) clock issue_files st out n).1.1 = st.
Proof.
  revert st out n.
  induction issue_files as [|issue_file rest IH]; intros st out n; simpl; [done|].
  destruct (st !! issue_file) as [f|]; [|done].
  rewrite dry_run_writes_nothing.
  destruct (Script.result _) as [[|]|e]; simpl; [apply IH|apply IH|done].
Qed.

(** ** Two passes over the issue files *)

Section process_twice.
Context (step step' : Script.file → Script.run) (clock clock' : string → string).

Local Abbreviation settled := (Script.settled step').
Local Abbreviation settled_at := (Script.settled_at step').

(** The first pass's call either returns [False], on a file that is settled,
    or returns [True] after writing a record that is settled under any
    modification time. *)
Hypothesis step_false :
  ∀ f, Script.result (step f) = Returned false →
       Script.written (step f) = None ∧ settled f.
Hypothesis step_true :
  ∀ f, Script.result (step f) = Returned true →
       ∃ issue', Script.written (step f) = Some issue' ∧
                 ∀ mt, settled (Script.mkFile issue' mt).

(** A pass that returns keeps the settled files settled and settles every
    file it visits. *)
Lemma process_settles issue_files st out n st1 out1 m :
  Script.process step clock issue_files st out n = (st1, out1, Returned m) →
  (∀ p, settled_at st p → settled_at st1 p) ∧
  (∀ p, p ∈ issue_files → settled_at st1 p).
Proof.
  revert st out n.
  induction issue_files as [|issue_file rest IH]; intros st out n; simpl.
  { intros [= <- _ _]. split; [done|]. intros p Hp. by inversion Hp. }
  destruct (st !! issue_file) as [f|] eqn:Hf; [|done].
  destruct (Script.result (step f)) as [[|]|e] eqn:Hres; [| |done].
  - destruct (step_true f Hres) as (issue' & Hw & Hsettled). rewrite Hw.
    intros Hrest. apply IH in Hrest as [Hkeep Hvisit].
    assert (Hnew : ∀ p, settled_at st p ∨ p = issue_file →
              settled_at (<[issue_file := Script.mkFile issue' (clock issue_file)]> st) p).
    { intros p Hp. destruct (decide (p = issue_file)) as [->|Hne].
      - eexists. by rewrite lookup_insert_eq.
      - destruct Hp as [(g & Hg & ?)|?]; [|done].
        exists g. by rewrite lookup_insert_ne. }
    split.
    + intros p Hp. apply Hkeep, Hnew. by left.
    + intros p [->|Hp]%elem_of_cons; [|by apply Hvisit].
      apply Hkeep, Hnew. by right.
  - destruct (step_false f Hres) as [Hw Hsettled]. rewrite Hw.
    intros Hrest. apply IH in Hrest as [Hkeep Hvisit].
    split; [done|].
    intros p [->|Hp]%elem_of_cons; [|by apply Hvisit].
    apply Hkeep. by exists f.
Qed.

(** A pass over settled files changes no file and counts no modification. *)
Lemma process_settled issue_files st out n :
  (∀ p, p ∈ issue_files → settled_at st p) →
  ∃ out', Script.process step' clock' issue_files st out n = (st, out', Returned n).
Proof.
  revert out. induction issue_files as [|issue_file rest IH]; intros out Hall; simpl.
  { by eexists. }
  destruct (Hall issue_file) as (f & -> & Hw & Hres); [by left|].
  rewrite Hw, Hres. apply IH. intros p Hp. apply Hall. by right.
Qed.

Lemma process_twice issue_files st out n st1 out1 m out' n' :
  Script.process step clock issue_files st out n = (st1, out1, Returned m) →
  ∃ out2, Script.process step' clock' issue_files st1 out' n' = (st1, out2, Returned n').
Proof.
  intros Hfirst. apply process_settled.
  by apply (process_settles _ _ _ _ _ _ _ Hfirst).
Qed.

End process_twice.

Lemma reconcile_unfold m events dry_run clock issue_files st :
  reconcile m events dry_run clock issue_files st
  = Script.process (reconcile_issue m events dry_run) clock issue_files st [] 0%Z.
Proof. by destruct m. Qed.

Lemma reconcile_issue_false m events dry_run f :
  Script.result (reconcile_issue m events false f) = Returned false →
  Script.written (reconcile_issue m events false f) = None ∧
  Script.settled (reconcile_issue m events dry_run) f.
Proof.
  destruct m; simpl; intros Hres.
  - apply migrate_issue_returned_false in Hres.
    split; [by apply migrate_issue_skips|].
    by apply migrate_issue_skips.
  - split; [by apply (fix_issue_returned_false events false)|].
    by apply fix_issue_returned_false.
Qed.

Lemma reconcile_issue_true m events dry_run f :
  Script.result (reconcile_issue m events false f) = Returned true →
  ∃ issue', Script.written (reconcile_issue m events false f) = Some issue' ∧
            ∀ mt, Script.settled (reconcile_issue m events dry_run) (Script.mkFile issue' mt).
Proof.
  destruct m; simpl; intros Hres.
  - apply migrate_issue_returned_true in Hres as (c & u & Hw).
    eexists. split; [done|]. intros mt. apply migrate_issue_skips. right. simpl.
    by rewrite set_timestamps_created, set_timestamps_updated.
  - apply fix_issue_returned_true in Hres as (issue' & Hw & Hnext).
    exists issue'. split; [done|]. intros mt. unfold Script.settled.
    by rewrite Hnext.
Qed.

(** C7: after a pass of the reconciler that completes, in either mode, a
    second pass over the same issue files with the same event log counts no
    modification and leaves every issue file as it is (whether the second
    pass is a dry run or not): Migrate returns at once on a record that has
    both entries, Repair on one whose entries equal the computed values. *)
Theorem second_pass_changes_nothing (m : mode) (events : list dict)
    (clock clock' : string → string) (dry_run : bool) (issue_files : list string)
    (st st1 : gmap string Script.file) (out1 : list Script.message) (n : Z) :
  reconcile m events false clock issue_files st = (st1, out1, Returned n) →
  ∃ out2, reconcile m events dry_run clock' issue_files st1 = (st1, out2, Returned 0%Z).
Proof.
  rewrite !reconcile_unfold. intros Hfirst.
  eapply (process_twice (reconcile_issue m events false) (reconcile_issue m events dry_run));
    [| |exact Hfirst].
  - intros f. apply reconcile_issue_false.
  - intros f. apply reconcile_issue_true.
Qed.

(** C10: in both modes a call on an issue file either writes nothing, as it
    does in every dry run, or writes the record with both [created_at] and
    [updated_at] set to the values the call has derived, and every other
    entry as it was. *)
Theorem timestamps_written_together (m : mode) (events : list dict) (dry_run : bool)
    (f : Script.file) :
  let issue := Script.content f in
  let issue_events := Script.events_of (get issue "id") events in
  let r := reconcile_issue m events dry_run f in
  (dry_run = true → Script.written r = None) ∧
  (Script.written r = None ∨
   ∃ c u,
     Script.written r = Some (Script.set_timestamps c u issue) ∧
     Script.set_timestamps c u issue !! "created_at" = Some c ∧
     Script.set_timestamps c u issue !! "updated_at" = Some u ∧
     (∀ k, k ≠ "created_at" → k ≠ "updated_at" →
           Script.set_timestamps c u issue !! k = issue !! k) ∧
     match m with
     | MigrateMode =>
         let found := Migrate.find_timestamps_from_events (get issue "id") events in
         c = (if truthy found.1 then found.1 else VStr (Script.mtime f)) ∧
         u = (if truthy found.2 then found.2 else VStr (Script.mtime f))
     | RepairMode =>
         ∃ e0 en, head issue_events = Some e0 ∧ last issue_events = Some en ∧
                  c = get e0 "timestamp" ∧ u = get en "timestamp"
     end).
Proof.
  simpl. split.
  { intros ->. apply dry_run_writes_nothing. }
  destruct (Script.written (reconcile_issue m events dry_run f)) as [issue'|] eqn:Hw;
    [right|by left].
  destruct m; simpl in Hw.
  - apply migrate_issue_written in Hw as (_ & _ & _ & ->).
    eexists _, _. split; [done|].
    split; [apply set_timestamps_created|].
    split; [apply set_timestamps_updated|].
    split; [intros k; apply set_timestamps_other|done].
  - apply fix_issue_written in Hw
      as (_ & _ & _ & _ & e0 & en & Hhead & Hlast & _ & _ & _ & ->).
    eexists _, _. split; [done|].
    split; [apply set_timestamps_created|].
    split; [apply set_timestamps_updated|].
    split; [intros k; apply set_timestamps_other|].
    by exists e0, en.
Qed.

Lemma migrate_issue_writes events f s :
  get (Script.content f) "id" = VStr s → truthy (VStr s) = true →
  contains (Script.content f) "created_at" && contains (Script.content f) "updated_at" = false →
  let found := Migrate.find_timestamps_from_events (VStr s) events in
  Migrate.migrate_issue events false f
  = Script.mkRun
      (Some (Script.set_timestamps
               (if truthy found.1 then found.1 else VStr (Script.mtime f))
               (if truthy found.2 then found.2 else VStr (Script.mtime f))
               (Script.content f)))
      ((if truthy found.1 then [] else [Script.UsingMtime (String.substring 0 8 s)])
       ++ [Script.Added (String.substring 0 8 s)])
      (Returned true).
Proof.
  intros Hid Hs Hmiss. cbv zeta.
  unfold Migrate.migrate_issue, Migrate.add_timestamps, Migrate.get_file_mtime_rfc3339.
  rewrite Hid, Hs, Hmiss. simpl.
  destruct (Migrate.find_timestamps_from_events (VStr s) events) as [c0 u0]. simpl.
  by destruct (truthy c0).
Qed.



(** C7 on a directory with an issue of [X] and a record with no [id]: the
    first Migrate pass modifies one file, the second none. *)
Lemma second_pass_changes_nothing_witness :
  let issue_files := ["n.json"; "x.json"] in
  let first :=
    reconcile MigrateMode Examples.log_X false Examples.clock issue_files Examples.store_XN in
  first.2 = Returned 1%Z ∧
  ∃ out2,
    reconcile MigrateMode Examples.log_X false Examples.clock issue_files first.1.1
    = (first.1.1, out2, Returned 0%Z).
Proof.
  split; [evaluated|].
  eapply (second_pass_changes_nothing MigrateMode Examples.log_X Examples.clock Examples.clock
            false ["n.json"; "x.json"] Examples.store_XN).
  evaluated.
Defined.

(** C3, as the code has it: for an issue with an identifier whose events
    are [e0; e1; e2], with timestamps on [e0] and [e2], a live Repair leaves
    the record with [created_at] equal to the timestamp of [e0] and
    [updated_at] equal to the timestamp of [e2] whatever the stored values
    were, provided both stored values are present and not empty; when one
    of them is absent or empty Repair skips the issue and writes nothing. *)
Theorem repair_sets_first_and_last (events : list dict) (f : Script.file)
    (e0 e1 e2 : dict) :
  let issue := Script.content f in
  truthy (get issue "id") = true →
  Script.events_of (get issue "id") events = [e0; e1; e2] →
  truthy (get e0 "timestamp") = true →
  truthy (get e2 "timestamp") = true →
  let r := Fix.fix_issue_timestamps events false f in
  let issue' := Script.record_after f r in
  (truthy (get issue "created_at") = true ∧ truthy (get issue "updated_at") = true →
   ∃ c u,
     issue' !! "created_at" = Some c ∧ py_eq c (get e0 "timestamp") = true ∧
     issue' !! "updated_at" = Some u ∧ py_eq u (get e2 "timestamp") = true ∧
     (∀ t, get e0 "timestamp" = VStr t → c = VStr t) ∧
     (∀ t, get e2 "timestamp" = VStr t → u = VStr t)) ∧
  (truthy (get issue "created_at") = false ∨ truthy (get issue "updated_at") = false →
   Script.written r = None ∧ issue' = issue).
Proof.
  simpl. intros Hid Hevents Ht0 Ht2.
  unfold Script.record_after, Fix.fix_issue_timestamps, Fix.report.
  rewrite Hid, Hevents. simpl. rewrite Ht0, Ht2. simpl. split.
  - intros [Hoc Hou]. rewrite Hoc, Hou. simpl.
    destruct (py_eq (get (Script.content f) "created_at") (get e0 "timestamp")) eqn:Ec; simpl;
      [destruct (py_eq (get (Script.content f) "updated_at") (get e2 "timestamp")) eqn:Eu;
       simpl|].
    + destruct (truthy_get_Some _ _ Hoc) as [c Hc].
      destruct (truthy_get_Some _ _ Hou) as [u Hu].
      rewrite (get_Some _ _ _ Hc) in Ec. rewrite (get_Some _ _ _ Hu) in Eu.
      exists c, u. repeat split; try done.
      * intros t Ht. rewrite Ht in Ec. by apply py_eq_str.
      * intros t Ht. rewrite Ht in Eu. by apply py_eq_str.
    + exists (get e0 "timestamp"), (get e2 "timestamp").
      destruct (slice8 _); simpl;
        rewrite set_timestamps_created, set_timestamps_updated, !py_eq_refl;
        repeat split; try done; by intros t ->.
    + exists (get e0 "timestamp"), (get e2 "timestamp").
      destruct (slice8 _); simpl;
        rewrite set_timestamps_created, set_timestamps_updated, !py_eq_refl;
        repeat split; try done; by intros t ->.
  - intros Hmiss.
    assert (negb (truthy (get (Script.content f) "created_at"))
            || negb (truthy (get (Script.content f) "updated_at")) = true) as ->.
    { destruct Hmiss as [-> | ->]; [done|]. apply orb_true_r. }
    by destruct (slice8 _).
Qed.

(** C3 on a record of [X] whose two entries hold the modification time. *)
Lemma repair_sets_first_and_last_witness :
  let r := Fix.fix_issue_timestamps Examples.log_X false Examples.file_both in
  Script.events_of (VStr "X") Examples.log_X
  = [Examples.logged "X" "issue_created" Examples.t0;
     Examples.logged "X" "issue_updated" Examples.t1;
     Examples.logged "X" "issue_closed" Examples.t2] ∧
  ∃ c u,
    Script.record_after Examples.file_both r !! "created_at" = Some c ∧
    py_eq c (VStr Examples.t0) = true ∧
    Script.record_after Examples.file_both r !! "updated_at" = Some u ∧
    py_eq u (VStr Examples.t2) = true.
Proof.
  split; [evaluated|].
  destruct (repair_sets_first_and_last Examples.log_X Examples.file_both
              (Examples.logged "X" "issue_created" Examples.t0)
              (Examples.logged "X" "issue_updated" Examples.t1)
              (Examples.logged "X" "issue_closed" Examples.t2)
              eq_refl ltac:(evaluated) eq_refl eq_refl) as [Hset _].
  destruct (Hset (conj eq_refl eq_refl)) as (c & u & Hc & Hc' & Hu & Hu' & _).
  by exists c, u.
Defined.

(** C3 as the specification states it fails: on a record of [X] with no [created_at]
    entry Repair prints that there are no timestamps and returns; the
    record keeps its stored [updated_at] and gets no [created_at], although
    the log holds the three events of [X]. *)
Lemma repair_skips_record_without_created_at :
  let r := Fix.fix_issue_timestamps Examples.log_X false Examples.file_updated_only in
  Script.events_of (VStr "X") Examples.log_X
  = [Examples.logged "X" "issue_created" Examples.t0;
     Examples.logged "X" "issue_updated" Examples.t1;
     Examples.logged "X" "issue_closed" Examples.t2] ∧
  r = Script.mkRun None [Script.NoTimestamps "X"] (Returned false) ∧
  Script.record_after Examples.file_updated_only r !! "created_at" ≠ Some (VStr Examples.t0) ∧
  Script.record_after Examples.file_updated_only r !! "updated_at" ≠ Some (VStr Examples.t2).
Proof. evaluated. Qed.

(** C5, as the code has it, for an issue whose events are in chronological
    order and carry timestamps.  When Repair writes, [created_at] is the
    timestamp of the issue's first event, no later than any of its events,
    and [created_at ≤ updated_at].  When Migrate writes: with no events both
    entries are the file's modification time; with a creation marker that
    it recognises and that has a timestamp, [created_at] is the marker's
    timestamp and [created_at ≤ updated_at], and when that marker is the
    issue's first event [created_at] is no later than any of its events. *)
Theorem written_timestamps_ordered (epoch : value → Z) (events : list dict)
    (dry_run : bool) (f : Script.file) (issue' : dict) :
  let issue := Script.content f in
  let issue_events := Script.events_of (get issue "id") events in
  chronological epoch issue_events →
  Forall (λ e, truthy (get e "timestamp") = true) issue_events →
  (Script.written (Fix.fix_issue_timestamps events dry_run f) = Some issue' →
   ∃ e0 u,
     head issue_events = Some e0 ∧
     issue' !! "created_at" = Some (get e0 "timestamp") ∧
     issue' !! "updated_at" = Some u ∧
     (epoch (get e0 "timestamp") ≤ epoch u)%Z ∧
     Forall (λ e, (epoch (get e0 "timestamp") ≤ epoch (get e "timestamp"))%Z) issue_events) ∧
  (Script.written (Migrate.migrate_issue events dry_run f) = Some issue' →
   ∃ c u,
     issue' !! "created_at" = Some c ∧
     issue' !! "updated_at" = Some u ∧
     (issue_events = [] → c = VStr (Script.mtime f) ∧ u = VStr (Script.mtime f)) ∧
     (truthy (Migrate.first_created issue_events) = true →
      c = Migrate.first_created issue_events ∧
      (epoch c ≤ epoch u)%Z ∧
      ∀ e0, head issue_events = Some e0 →
            py_eq (get e0 "event_type") (VStr "issue_created") = true →
            c = get e0 "timestamp" ∧
            Forall (λ e, (epoch c ≤ epoch (get e "timestamp"))%Z) issue_events)).
Proof.
  simpl. intros Hchron Hts. split.
  - intros Hw. apply fix_issue_written in Hw
      as (_ & _ & _ & _ & e0 & en & Hhead & Hlast & _ & _ & _ & ->).
    exists e0, (get en "timestamp").
    split; [done|]. split; [apply set_timestamps_created|].
    split; [apply set_timestamps_updated|]. split.
    + eapply chronological_last; [done| |done].
      apply head_Some_elem_of, Hhead.
    + by apply chronological_head.
  - intros Hw. apply migrate_issue_written in Hw as (_ & _ & _ & ->).
    eexists _, _. split; [apply set_timestamps_created|].
    split; [apply set_timestamps_updated|].
    unfold Migrate.find_timestamps_from_events. split.
    + by intros ->.
    + intros Hmarker.
      destruct (last (Script.events_of _ events)) as [en|] eqn:Hlast.
      2:{ apply last_None in Hlast. by rewrite Hlast in Hmarker. }
      simpl. rewrite Hmarker.
      assert (truthy (get en "timestamp") = true) as ->.
      { rewrite Forall_forall in Hts. by eapply Hts, last_Some_elem_of. }
      split; [done|]. split.
      * destruct (first_created_elem _ Hmarker) as (e & He & _ & ->).
        by eapply chronological_last.
      * intros e0 Hhead Hkind.
        destruct (Script.events_of _ events) as [|e l] eqn:Hevs; simplify_eq/=.
        rewrite Hkind. split; [done|].
        by apply (chronological_head epoch (e0 :: l)).
Qed.

(** C5 on a record of [X] that Migrate fills from a log whose first event
    of [X] is its creation marker. *)
Lemma written_timestamps_ordered_witness :
  let issue_events := Script.events_of (VStr "X") Examples.log_typed_X in
  let r := Migrate.migrate_issue Examples.log_typed_X false Examples.file_bare in
  chronological instant issue_events ∧
  Forall (λ e, truthy (get e "timestamp") = true) issue_events ∧
  Script.written r
  = Some (Script.set_timestamps (VStr Examples.t0) (VStr Examples.t2)
            (Script.content Examples.file_bare)) ∧
  ∃ c u,
    Script.set_timestamps (VStr Examples.t0) (VStr Examples.t2)
      (Script.content Examples.file_bare) !! "created_at" = Some c ∧
    Script.set_timestamps (VStr Examples.t0) (VStr Examples.t2)
      (Script.content Examples.file_bare) !! "updated_at" = Some u ∧
    (instant c ≤ instant u)%Z.
Proof.
  assert (Hchron : chronological instant (Script.events_of (VStr "X") Examples.log_typed_X)).
  { unfold chronological. repeat constructor; evaluated. }
  assert (Hts : Forall (λ e, truthy (get e "timestamp") = true)
                  (Script.events_of (VStr "X") Examples.log_typed_X)).
  { repeat constructor. }
  assert (Hw : Script.written
                 (Migrate.migrate_issue Examples.log_typed_X false Examples.file_bare)
               = Some (Script.set_timestamps (VStr Examples.t0) (VStr Examples.t2)
                         (Script.content Examples.file_bare))).
  { evaluated. }
  split; [exact Hchron|]. split; [exact Hts|]. split; [exact Hw|].
  destruct (written_timestamps_ordered instant Examples.log_typed_X false Examples.file_bare
              (Script.set_timestamps (VStr Examples.t0) (VStr Examples.t2)
                 (Script.content Examples.file_bare))
              Hchron Hts) as [_ Hmigrate].
  destruct (Hmigrate Hw) as (c & u & Hc & Hu & _ & Hmarker).
  destruct (Hmarker eq_refl) as (_ & Hle & _).
  by exists c, u.
Defined.

(** C5 as the specification states it fails: with the creation marker of [X] logged
    after an earlier event of [X], in a chronological log, Migrate writes
    the marker's timestamp as [created_at], which is later than the
    timestamp of the earliest event of [X]. *)
Lemma migrate_created_at_later_than_first_event :
  let issue_events := Script.events_of (VStr "X") Examples.log_late_marker in
  let r := Migrate.migrate_issue Examples.log_late_marker false Examples.file_bare in
  head issue_events = Some (Examples.typed "X" "issue_imported" Examples.t0) ∧
  Script.record_after Examples.file_bare r !! "created_at" = Some (VStr Examples.t1) ∧
  Script.record_after Examples.file_bare r !! "updated_at" = Some (VStr Examples.t2) ∧
  ¬ (instant (VStr Examples.t1)
     ≤ instant (get (Examples.typed "X" "issue_imported" Examples.t0) "timestamp"))%Z.
Proof. evaluated. Qed.

(** C1 at the log as the tracker writes it, with the kind of an event under
    [type]: Migrate finds no [event_type] entry equal to [issue_created],
    takes no event as the creation marker, and writes the file's
    modification time as [created_at], not the timestamp of the first event
    of [X]; [updated_at] is the timestamp of the last one. *)
Theorem migrate_uses_mtime_despite_events :
  let r := Migrate.migrate_issue Examples.log_X false Examples.file_bare in
  Script.events_of (VStr "X") Examples.log_X
  = [Examples.logged "X" "issue_created" Examples.t0;
     Examples.logged "X" "issue_updated" Examples.t1;
     Examples.logged "X" "issue_closed" Examples.t2] ∧
  Script.result r = Returned true ∧
  Script.printed r = [Script.UsingMtime "X"; Script.Added "X"] ∧
  Script.record_after Examples.file_bare r !! "created_at" = Some (VStr Examples.t_file) ∧
  Script.record_after Examples.file_bare r !! "created_at" ≠ Some (VStr Examples.t0) ∧
  Script.record_after Examples.file_bare r !! "updated_at" = Some (VStr Examples.t2).
Proof. evaluated. Qed.

(** Repair twice on a record of [X] whose entries hold the modification
    time: the first pass fixes the file, the second finds it correct. *)
Example repair_twice :
  let first :=
    reconcile RepairMode Examples.log_X false Examples.clock ["x.json"] Examples.store_X_both in
  first.2 = Returned 1%Z ∧
  first.1.2 = [Script.Fixed "X" (VStr Examples.t0) (VStr Examples.t2)] ∧
  reconcile RepairMode Examples.log_X false Examples.clock ["x.json"] first.1.1
  = (first.1.1, [], Returned 0%Z).
Proof. evaluated. Qed.

(** * Further properties of the timestamp scripts *)

(** ** Loading the event log *)

Section load_events_facts.
Context (strip : string → string) (json_loads : string → option json).

Local Abbreviation read_lines := (Script.read_lines strip json_loads).
Local Abbreviation load_events := (Script.load_events strip json_loads).

Lemma read_lines_warnings lines events out :
  (read_lines lines events out).2
  = out ++ replicate (length (List.filter (unparseable strip json_loads) lines))
             Script.WarnParseEvent.
Proof.
  revert events out. induction lines as [|line rest IH]; intros events out; simpl.
  { by rewrite app_nil_r. }
  unfold unparseable at 1. simpl.
  destruct (strip line) as [|c s] eqn:Hline; simpl; [apply IH|].
  destruct (json_loads (String c s)) as [e|]; simpl; rewrite IH; [done|].
  by rewrite <-app_assoc.
Qed.

Lemma read_lines_pair lines events out :
  read_lines lines events out
  = (events ++ omap (Script.decoded strip json_loads) lines,
     out ++ replicate (length (List.filter (unparseable strip json_loads) lines))
              Script.WarnParseEvent).
Proof.
  rewrite (surjective_pairing (read_lines lines events out)).
  f_equal; [apply read_lines_decoded|apply read_lines_warnings].
Qed.

(** X9: [load_events] returns the events of the lines that are not blank and
    decode, in the order of the log, whatever lines lie between them; a log
    file that does not exist gives no event and no warning. *)
Theorem load_events_keeps_decodable_lines (lines : list string) :
  (load_events (Some lines)).1 = omap (Script.decoded strip json_loads) lines ∧
  load_events None = ([], []).
Proof. split; [|done]. unfold Script.load_events. by rewrite read_lines_pair. Qed.

(** X10: [load_events] prints one warning for each line that is not blank
    and does not decode, and nothing else; every line that is not blank
    gives an event or a warning. *)
Theorem load_events_warns_once_per_bad_line (lines : list string) :
  (load_events (Some lines)).2
  = replicate (length (List.filter (unparseable strip json_loads) lines))
      Script.WarnParseEvent ∧
  (length (load_events (Some lines)).1 + length (load_events (Some lines)).2
   = length (List.filter (nonblank strip) lines))%nat.
Proof.
  unfold Script.load_events. rewrite read_lines_pair. simpl. split; [done|].
  rewrite length_replicate.
  induction lines as [|line rest IH]; simpl; [done|].
  unfold unparseable at 1, nonblank at 1, Script.decoded at 1.
  destruct (truthy (VStr (strip line))); simpl; [|exact IH].
  destruct (json_loads (strip line)) as [e|]; simpl.
  - f_equal. exact IH.
  - rewrite Nat.add_succ_r. f_equal. exact IH.
Qed.

(** X11: the log is append-only, and so is its reading: the events and the
    warnings of a log with lines added at its end are those of the log as
    it was, followed by those of the added lines. *)
Theorem load_events_of_appended_log (lines added : list string) :
  load_events (Some (lines ++ added))
  = ((load_events (Some lines)).1 ++ (load_events (Some added)).1,
     (load_events (Some lines)).2 ++ (load_events (Some added)).2).
Proof.
  unfold Script.load_events. rewrite !read_lines_pair. simpl.
  by rewrite omap_app, List.filter_app, length_app, replicate_add.
Qed.

End load_events_facts.

(** ** Events that are not dictionaries *)

Lemma scalars_entry members d k :
  Script.scalars members = Some d → entry members k = JScalar <$> d !! k.
Proof.
  revert d. induction members as [|[k' j] rest IH]; intros d; simpl.
  { intros [= <-]. by rewrite lookup_empty. }
  destruct j as [v|items|members']; try done.
  destruct (Script.scalars rest) as [d0|]; [|done].
  intros [= <-]. rewrite (IH d0 eq_refl).
  destruct (d0 !! k') as [u|] eqn:Hk'.
  - destruct (d0 !! k) as [u'|] eqn:Hk; simpl; [done|].
    rewrite bool_decide_eq_false_2; [done|]. intros ->. by rewrite Hk in Hk'.
  - destruct (decide (k' = k)) as [->|Hne].
    + by rewrite Hk', lookup_insert_eq, bool_decide_eq_true_2.
    + rewrite lookup_insert_ne by done.
      destruct (d0 !! k); simpl; [done|]. by rewrite bool_decide_eq_false_2.
Qed.

Lemma event_get_as_dict e d k :
  Script.as_dict e = Some d → Script.event_get e k = Returned (JScalar (get d k)).
Proof.
  destruct e as [v|items|members]; simpl; try done.
  intros Hd. rewrite (scalars_entry _ _ k Hd). unfold get. by destruct (d !! k).
Qed.

(** X30: the events of an issue, taken from the log as [load_events] returns
    it.  An event that is not a [dict], from a log line such as [42], makes
    the comprehension of both scripts raise [AttributeError], whatever the
    issue; and on a log whose events are dictionaries of scalars the
    comprehension returns the events that [events_of] selects. *)
Theorem log_events_of_issue (issue_id : value) (events : list json) :
  (Exists (λ e, ∀ members, e ≠ JObject members) events →
   Script.events_of_log issue_id events = Raised AttributeError) ∧
  (∀ ds, Forall2 (λ e d, Script.as_dict e = Some d) events ds →
     ∃ kept, Script.events_of_log issue_id events = Returned kept ∧
             Forall2 (λ e d, Script.as_dict e = Some d) kept (Script.events_of issue_id ds)).
Proof.
  split.
  - induction 1 as [e rest He|e rest _ IH]; simpl.
    + destruct e as [v|items|members]; simpl; try done. by destruct (He members).
    + rewrite IH. by destruct e as [v|items|members].
  - intros ds Hds. induction Hds as [|e d rest ds He _ (kept & IH & Hkept)]; simpl.
    { exists []. by split. }
    rewrite (event_get_as_dict e d "issue_id" He), IH. simpl.
    destruct (py_eq (get d "issue_id") issue_id).
    + exists (e :: kept). split; [done|]. by constructor.
    + by exists kept.
Qed.

(** X30 at the line [42]: with a decoder that knows that line, [load_events]
    keeps the number as an event and prints no warning, and the
    comprehension raises on it. *)
Example log_events_of_issue_example :
  let json_loads (line : string) :=
    if bool_decide (line = "42") then Some (JScalar (VInt 42)) else None in
  Script.load_events (λ line, line) json_loads (Some ["42"]) = ([JScalar (VInt 42)], []) ∧
  Script.events_of_log (VStr "X") [JScalar (VInt 42)] = Raised AttributeError.
Proof. evaluated. Qed.

(** ** Timestamps found in the log *)

Lemma first_created_app_marker pre e post :
  Forall (λ event, is_marker event = false) pre → is_marker e = true →
  Migrate.first_created (pre ++ e :: post) = get e "timestamp".
Proof.
  unfold is_marker. intros Hpre He.
  induction Hpre as [|x pre Hx _ IH]; simpl; [by rewrite He|by rewrite Hx].
Qed.

Lemma first_created_app_l issue_events added :
  Exists (λ event, is_marker event = true) issue_events →
  Migrate.first_created (issue_events ++ added) = Migrate.first_created issue_events.
Proof.
  unfold is_marker. induction 1 as [x l Hx|x l _ IH]; simpl.
  - by rewrite Hx.
  - by destruct (py_eq (get x "event_type") (VStr "issue_created")).
Qed.

Lemma events_of_app issue_id l1 l2 :
  Script.events_of issue_id (l1 ++ l2)
  = Script.events_of issue_id l1 ++ Script.events_of issue_id l2.
Proof. apply List.filter_app. Qed.

(** X12: the [created_at] that [find_timestamps_from_events] returns is the
    timestamp of the first event of the issue whose [event_type] is
    [issue_created]: the events of the issue before it and whatever comes
    after it, later creation markers included, make no difference. *)
Theorem created_at_is_first_marker (issue_id : value) (events pre post : list dict)
    (e : dict) :
  Script.events_of issue_id events = pre ++ e :: post →
  Forall (λ event, is_marker event = false) pre →
  is_marker e = true →
  (Migrate.find_timestamps_from_events issue_id events).1 = get e "timestamp".
Proof.
  intros Hevents Hpre He. unfold Migrate.find_timestamps_from_events. rewrite Hevents.
  destruct (last (pre ++ e :: post)) as [en|] eqn:Hlast.
  - simpl. by apply first_created_app_marker.
  - apply last_None in Hlast. by destruct pre.
Qed.

(** X12 on a log with two creation markers for [X]. *)
Lemma created_at_is_first_marker_witness :
  let events :=
    [Examples.typed "X" "issue_imported" Examples.t0;
     Examples.typed "Y" "issue_created" Examples.t0;
     Examples.typed "X" "issue_created" Examples.t1;
     Examples.typed "X" "issue_created" Examples.t2] in
  Script.events_of (VStr "X") events
  = [Examples.typed "X" "issue_imported" Examples.t0]
    ++ Examples.typed "X" "issue_created" Examples.t1
    :: [Examples.typed "X" "issue_created" Examples.t2] ∧
  (Migrate.find_timestamps_from_events (VStr "X") events).1 = VStr Examples.t1.
Proof.
  split; [evaluated|].
  exact (created_at_is_first_marker (VStr "X")
    [Examples.typed "X" "issue_imported" Examples.t0;
     Examples.typed "Y" "issue_created" Examples.t0;
     Examples.typed "X" "issue_created" Examples.t1;
     Examples.typed "X" "issue_created" Examples.t2]
    [Examples.typed "X" "issue_imported" Examples.t0]
    [Examples.typed "X" "issue_created" Examples.t2]
    (Examples.typed "X" "issue_created" Examples.t1)
    ltac:(evaluated) ltac:(by repeat constructor) eq_refl).
Defined.

(** X13: when an event of the issue is appended to the log, the
    [updated_at] that [find_timestamps_from_events] returns becomes the
    timestamp entry of that event, and the [created_at] it returns stays
    the same if the log already held a creation marker of the issue. *)
Theorem appended_event_sets_updated_at (issue_id : value) (events : list dict) (e : dict) :
  py_eq (get e "issue_id") issue_id = true →
  (Migrate.find_timestamps_from_events issue_id (events ++ [e])).2 = get e "timestamp" ∧
  (Exists (λ event, is_marker event = true) (Script.events_of issue_id events) →
   (Migrate.find_timestamps_from_events issue_id (events ++ [e])).1
   = (Migrate.find_timestamps_from_events issue_id events).1).
Proof.
  intros He. unfold Migrate.find_timestamps_from_events.
  rewrite events_of_app. unfold Script.events_of at 2 4. simpl. rewrite He.
  rewrite last_snoc. simpl. split; [done|].
  intros Hmarker. rewrite (first_created_app_l _ _ Hmarker).
  destruct (last (Script.events_of issue_id events)) as [en|] eqn:Hlast; [done|].
  apply last_None in Hlast. rewrite Hlast in Hmarker. by inversion Hmarker.
Qed.

(** X13 on the log of [X] with one more event of [X]. *)
Lemma appended_event_sets_updated_at_witness :
  let e := Examples.typed "X" "issue_reopened" Examples.t_file in
  py_eq (get e "issue_id") (VStr "X") = true ∧
  (Migrate.find_timestamps_from_events (VStr "X") (Examples.log_typed_X ++ [e])).2
  = VStr Examples.t_file ∧
  (Migrate.find_timestamps_from_events (VStr "X") (Examples.log_typed_X ++ [e])).1
  = VStr Examples.t0.
Proof.
  split; [reflexivity|].
  destruct (appended_event_sets_updated_at (VStr "X") Examples.log_typed_X
              (Examples.typed "X" "issue_reopened" Examples.t_file) eq_refl) as [Hu Hc].
  split; [exact Hu|].
  rewrite Hc; [evaluated|].
  apply Exists_cons_hd. evaluated.
Defined.

(** X14: the events of other issues make no difference to the call on an
    issue file, in either mode: with an event of another issue put anywhere
    in the log, the call writes, prints and returns the same. *)
Theorem other_issues_events_are_ignored (m : mode) (l1 l2 : list dict) (e : dict)
    (dry_run : bool) (f : Script.file) :
  py_eq (get e "issue_id") (get (Script.content f) "id") = false →
  reconcile_issue m (l1 ++ e :: l2) dry_run f = reconcile_issue m (l1 ++ l2) dry_run f.
Proof.
  intros He.
  assert (Script.events_of (get (Script.content f) "id") (l1 ++ e :: l2)
          = Script.events_of (get (Script.content f) "id") (l1 ++ l2)) as Hsame.
  { rewrite !events_of_app. f_equal. unfold Script.events_of at 1. simpl. by rewrite He. }
  destruct m; simpl.
  - unfold Migrate.migrate_issue, Migrate.find_timestamps_from_events. by rewrite Hsame.
  - unfold Fix.fix_issue_timestamps. by rewrite Hsame.
Qed.

(** X14 on the log of [X], which holds an event of [Y]. *)
Lemma other_issues_events_are_ignored_witness :
  py_eq (get (Examples.logged "Y" "issue_created" Examples.t0) "issue_id")
    (get (Script.content Examples.file_both) "id") = false ∧
  reconcile_issue RepairMode Examples.log_X false Examples.file_both
  = reconcile_issue RepairMode
      [Examples.logged "X" "issue_created" Examples.t0;
       Examples.logged "X" "issue_updated" Examples.t1;
       Examples.logged "X" "issue_closed" Examples.t2] false Examples.file_both.
Proof.
  split; [reflexivity|].
  exact (other_issues_events_are_ignored RepairMode
    [Examples.logged "X" "issue_created" Examples.t0]
    [Examples.logged "X" "issue_updated" Examples.t1;
     Examples.logged "X" "issue_closed" Examples.t2]
    (Examples.logged "Y" "issue_created" Examples.t0) false Examples.file_both eq_refl).
Defined.

(** ** One call on an issue file *)

Lemma not_has_timestamps (issue : dict) :
  ¬ has_timestamps issue → contains issue "created_at" && contains issue "updated_at" = false.
Proof.
  intros Hnot. apply not_true_is_false. intros [Hc Hu]%andb_true_iff.
  apply Hnot. split; by apply contains_true.
Qed.

(** X15: for an issue with a string identifier that lacks a timestamp entry
    and has no event in the log, a live Migrate writes the file's
    modification time as both [created_at] and [updated_at], says so, and
    returns [True]. *)
Theorem migrate_without_events_uses_mtime (events : list dict) (f : Script.file)
    (s : string) :
  get (Script.content f) "id" = VStr s →
  truthy (VStr s) = true →
  ¬ has_timestamps (Script.content f) →
  Script.events_of (VStr s) events = [] →
  Migrate.migrate_issue events false f
  = Script.mkRun
      (Some (Script.set_timestamps (VStr (Script.mtime f)) (VStr (Script.mtime f))
               (Script.content f)))
      [Script.UsingMtime (String.substring 0 8 s); Script.Added (String.substring 0 8 s)]
      (Returned true).
Proof.
  intros Hid Hs Hmiss Hevents.
  unfold Migrate.migrate_issue, Migrate.find_timestamps_from_events, Migrate.add_timestamps.
  rewrite Hid, Hs, (not_has_timestamps _ Hmiss), Hevents. reflexivity.
Qed.

(** X15 on the record of [X] and a log that holds events of [Y] only. *)
Lemma migrate_without_events_uses_mtime_witness :
  let events := [Examples.logged "Y" "issue_created" Examples.t0] in
  ¬ has_timestamps (Script.content Examples.file_bare) ∧
  Script.events_of (VStr "X") events = [] ∧
  Script.written (Migrate.migrate_issue events false Examples.file_bare)
  = Some (Script.set_timestamps (VStr Examples.t_file) (VStr Examples.t_file)
            (Script.content Examples.file_bare)).
Proof.
  assert (Hmiss : ¬ has_timestamps (Script.content Examples.file_bare)).
  { intros [[c Hc] _]. by vm_compute in Hc. }
  split; [exact Hmiss|]. split; [reflexivity|].
  exact (f_equal Script.written
    (migrate_without_events_uses_mtime [Examples.logged "Y" "issue_created" Examples.t0]
       Examples.file_bare "X" eq_refl eq_refl Hmiss eq_refl)).
Defined.

(** X16: a dry run predicts the live run.  In either mode the dry-run call
    writes nothing and returns, or raises, what the live call does; and when
    the identifier can be printed, the dry-run call returns [True] exactly
    when the live call writes the file. *)
Theorem dry_run_predicts_live_run (m : mode) (events : list dict) (f : Script.file) :
  let dry := reconcile_issue m events true f in
  let live := reconcile_issue m events false f in
  Script.written dry = None ∧
  Script.result dry = Script.result live ∧
  (Script.printable_id f →
   (Script.result dry = Returned true ↔ is_Some (Script.written live))).
Proof.
  cbv zeta. split; [apply dry_run_writes_nothing|].
  split.
  - destruct m; simpl.
    + unfold Migrate.migrate_issue, Migrate.add_timestamps.
      repeat (case_match; simpl in *; try done).
    + fix_cases.
  - intros [Hid|[s Hs]].
    { rewrite !(reconcile_issue_without_id _ _ _ _ Hid). simpl.
      split; [done|]. by intros [? ?]. }
    destruct m; simpl.
    + unfold Migrate.migrate_issue, Migrate.add_timestamps. rewrite Hs. simpl.
      repeat (case_match; simpl in *; try done);
        (split; [intros _; by eexists|done]) || (split; [done|by intros [? ?]]).
    + unfold Fix.fix_issue_timestamps, Fix.report. rewrite Hs. simpl.
      repeat (case_match; simpl in *; try done);
        (split; [intros _; by eexists|done]) || (split; [done|by intros [? ?]]).
Qed.

(** ** One pass over the issue files *)

Section process_facts.
Context (step : Script.file → Script.run) (clock : string → string).

Lemma process_count issue_files st out n st1 out1 k :
  (∀ f, Script.result (step f) = Returned false → Script.written (step f) = None) →
  Script.process step clock issue_files st out n = (st1, out1, Returned k) →
  (n ≤ k ≤ n + Z.of_nat (length issue_files))%Z ∧ (k = n → st1 = st).
Proof.
  intros Hfalse. revert st out n.
  induction issue_files as [|issue_file rest IH]; intros st out n; simpl.
  { intros [= <- _ <-]. split; [lia|done]. }
  destruct (st !! issue_file) as [f|]; [|done].
  destruct (Script.result (step f)) as [[|]|e] eqn:Hres; [| |done].
  - intros Hrest. apply IH in Hrest as [Hk _]. split; lia.
  - rewrite (Hfalse f Hres). intros Hrest. apply IH in Hrest as [Hk Hsame].
    split; [lia|done].
Qed.

Lemma process_frame issue_files st out n :
  let st1 := (Script.process step clock issue_files st out n).1.1 in
  dom st1 = dom st ∧ ∀ p, p ∉ issue_files → st1 !! p = st !! p.
Proof.
  revert st out n.
  induction issue_files as [|issue_file rest IH]; intros st out n; simpl; [done|].
  destruct (st !! issue_file) as [f|] eqn:Hf; simpl; [|done].
  set (st' := match Script.written (step f) with
              | Some issue => <[issue_file := Script.mkFile issue (clock issue_file)]> st
              | None => st
              end).
  assert (Hst' : dom st' = dom st ∧ ∀ p, p ≠ issue_file → st' !! p = st !! p).
  { unfold st'. destruct (Script.written (step f)); [|done]. split.
    - rewrite dom_insert_L. apply elem_of_dom_2 in Hf.
      apply subseteq_union_1_L. by apply singleton_subseteq_l.
    - intros p Hp. by rewrite lookup_insert_ne. }
  destruct Hst' as [Hdom Hother].
  destruct (Script.result (step f)) as [[|]|e]; simpl.
  - destruct (IH st' (out ++ Script.printed (step f)) (n + 1)%Z) as [IH1 IH2].
    split; [by rewrite IH1|]. intros p Hp. apply not_elem_of_cons in Hp as [Hne Hp].
    by rewrite IH2, Hother.
  - destruct (IH st' (out ++ Script.printed (step f)) n) as [IH1 IH2].
    split; [by rewrite IH1|]. intros p Hp. apply not_elem_of_cons in Hp as [Hne Hp].
    by rewrite IH2, Hother.
  - split; [done|]. intros p Hp. apply not_elem_of_cons in Hp as [Hne Hp]. by apply Hother.
Qed.

(** The entries of a record other than its two timestamps. *)
Lemma process_keeps_entries issue_files st out n :
  (∀ f issue' k, Script.written (step f) = Some issue' →
                 k ≠ "created_at" → k ≠ "updated_at" → issue' !! k = Script.content f !! k) →
  let st1 := (Script.process step clock issue_files st out n).1.1 in
  ∀ p f, st !! p = Some f →
         ∃ f1, st1 !! p = Some f1 ∧
               ∀ k, k ≠ "created_at" → k ≠ "updated_at" →
                    Script.content f1 !! k = Script.content f !! k.
Proof.
  intros Hstep. revert st out n.
  induction issue_files as [|issue_file rest IH]; intros st out n; simpl.
  { intros p f Hp. by exists f. }
  destruct (st !! issue_file) as [g|] eqn:Hg; simpl; [|intros p f Hp; by exists f].
  set (st' := match Script.written (step g) with
              | Some issue => <[issue_file := Script.mkFile issue (clock issue_file)]> st
              | None => st
              end).
  assert (Hst' : ∀ p f, st !! p = Some f →
            ∃ f1, st' !! p = Some f1 ∧
                  ∀ k, k ≠ "created_at" → k ≠ "updated_at" →
                       Script.content f1 !! k = Script.content f !! k).
  { intros p f Hp. unfold st'.
    destruct (Script.written (step g)) as [issue'|] eqn:Hw; [|by exists f].
    destruct (decide (p = issue_file)) as [->|Hne].
    - simplify_eq. eexists. rewrite lookup_insert_eq. split; [done|].
      intros k Hc Hu. simpl. by apply Hstep.
    - exists f. by rewrite lookup_insert_ne. }
  assert (Hgoal : ∀ out' n' p f, st !! p = Some f →
            ∃ f1, (Script.process step clock rest st' out' n').1.1 !! p = Some f1 ∧
                  ∀ k, k ≠ "created_at" → k ≠ "updated_at" →
                       Script.content f1 !! k = Script.content f !! k).
  { intros out' n' p f Hp. destruct (Hst' p f Hp) as (f' & Hf' & Hsame).
    destruct (IH st' out' n' p f' Hf') as (f1 & Hf1 & Hsame1).
    exists f1. split; [done|]. intros k Hc Hu. by rewrite Hsame1, Hsame. }
  destruct (Script.result (step g)) as [[|]|e]; simpl; [apply Hgoal|apply Hgoal|apply Hst'].
Qed.

End process_facts.

Lemma reconcile_issue_keeps_entries m events dry_run f issue' k :
  Script.written (reconcile_issue m events dry_run f) = Some issue' →
  k ≠ "created_at" → k ≠ "updated_at" → issue' !! k = Script.content f !! k.
Proof.
  intros Hw Hc Hu. destruct m; simpl in Hw.
  - apply migrate_issue_written in Hw as (_ & _ & _ & ->). by apply set_timestamps_other.
  - apply fix_issue_written in Hw as (_ & _ & _ & _ & e0 & en & _ & _ & _ & _ & _ & ->).
    by apply set_timestamps_other.
Qed.

Lemma reconcile_issue_false_writes_nothing m events dry_run f :
  Script.result (reconcile_issue m events dry_run f) = Returned false →
  Script.written (reconcile_issue m events dry_run f) = None.
Proof.
  destruct dry_run; [intros _; apply dry_run_writes_nothing|].
  intros Hres. by apply (reconcile_issue_false m events false).
Qed.

(** X17: the count a pass returns, in either mode, dry run or not, is at
    least 0 and at most the number of issue files; and a pass that returns 0
    has left every issue file as it was. *)
Theorem pass_count_is_bounded (m : mode) (events : list dict) (dry_run : bool)
    (clock : string → string) (issue_files : list string)
    (st st1 : gmap string Script.file) (out1 : list Script.message) (k : Z) :
  reconcile m events dry_run clock issue_files st = (st1, out1, Returned k) →
  (0 ≤ k ≤ Z.of_nat (length issue_files))%Z ∧ (k = 0%Z → st1 = st).
Proof.
  rewrite reconcile_unfold. intros Hpass.
  apply process_count in Hpass; [done|].
  intros f. apply reconcile_issue_false_writes_nothing.
Qed.

(** X17 on the directory with the issue of [X] and the record with no [id]. *)
Lemma pass_count_is_bounded_witness :
  let issue_files := ["n.json"; "x.json"] in
  let pass :=
    reconcile MigrateMode Examples.log_X false Examples.clock issue_files Examples.store_XN in
  pass.2 = Returned 1%Z ∧ (0 ≤ 1 ≤ Z.of_nat (length issue_files))%Z.
Proof.
  split; [evaluated|].
  eapply (pass_count_is_bounded MigrateMode Examples.log_X false Examples.clock
            ["n.json"; "x.json"] Examples.store_XN).
  evaluated.
Defined.

(** X18: a pass, however it ends, creates and deletes no issue file, and
    leaves every file it was not given as it was. *)
Theorem pass_touches_only_listed_files (m : mode) (events : list dict) (dry_run : bool)
    (clock : string → string) (issue_files : list string) (st : gmap string Script.file) :
  let st1 := (reconcile m events dry_run clock issue_files st).1.1 in
  dom st1 = dom st ∧ ∀ p, p ∉ issue_files → st1 !! p = st !! p.
Proof. rewrite reconcile_unfold. apply process_frame. Qed.

(** X19: a pass, however it ends, changes no entry of an issue record other
    than [created_at] and [updated_at]: every file is still there, with the
    identifier and every other entry it had. *)
Theorem pass_keeps_other_entries (m : mode) (events : list dict) (dry_run : bool)
    (clock : string → string) (issue_files : list string) (st : gmap string Script.file)
    (p : string) (f : Script.file) :
  st !! p = Some f →
  ∃ f1, (reconcile m events dry_run clock issue_files st).1.1 !! p = Some f1 ∧
        ∀ k, k ≠ "created_at" → k ≠ "updated_at" →
             Script.content f1 !! k = Script.content f !! k.
Proof.
  rewrite reconcile_unfold. apply process_keeps_entries.
  intros g issue' k. apply reconcile_issue_keeps_entries.
Qed.

(** X19 on the issue of [X], whose title survives the Migrate pass. *)
Lemma pass_keeps_other_entries_witness :
  let st1 :=
    (reconcile MigrateMode Examples.log_X false Examples.clock ["n.json"; "x.json"]
       Examples.store_XN).1.1 in
  Examples.store_XN !! "x.json" = Some Examples.file_bare ∧
  ∃ f1, st1 !! "x.json" = Some f1 ∧
        Script.content f1 !! "title" = Script.content Examples.file_bare !! "title".
Proof.
  split; [evaluated|].
  destruct (pass_keeps_other_entries MigrateMode Examples.log_X false Examples.clock
              ["n.json"; "x.json"] Examples.store_XN "x.json" Examples.file_bare
              ltac:(evaluated)) as (f1 & Hf1 & Hsame).
  exists f1. split; [exact Hf1|]. by apply Hsame.
Defined.

(** X20: after a live Migrate pass that returns, every issue file the pass
    was given holds a record that has both timestamp entries, unless the
    record has no identifier. *)
Theorem migrated_files_have_timestamps (events : list dict) (clock : string → string)
    (issue_files : list string) (st st1 : gmap string Script.file)
    (out1 : list Script.message) (k : Z) (p : string) :
  Migrate.main_loop events false clock issue_files st = (st1, out1, Returned k) →
  p ∈ issue_files →
  ∃ f1, st1 !! p = Some f1 ∧
        (truthy (get (Script.content f1) "id") = false ∨ has_timestamps (Script.content f1)).
Proof.
  unfold Migrate.main_loop. intros Hpass Hp.
  destruct (process_settles (Migrate.migrate_issue events false)
              (Migrate.migrate_issue events false) clock
              (reconcile_issue_false MigrateMode events false)
              (reconcile_issue_true MigrateMode events false)
              _ _ _ _ _ _ _ Hpass) as [_ Hvisit].
  destruct (Hvisit p Hp) as (f1 & Hf1 & _ & Hres).
  exists f1. split; [done|]. by apply migrate_issue_returned_false in Hres.
Qed.

(** X20 on the directory with the issue of [X] and the record with no [id]. *)
Lemma migrated_files_have_timestamps_witness :
  let issue_files := ["n.json"; "x.json"] in
  let pass := Migrate.main_loop Examples.log_X false Examples.clock issue_files Examples.store_XN in
  pass.2 = Returned 1%Z ∧ "x.json" ∈ issue_files ∧
  ∃ f1, pass.1.1 !! "x.json" = Some f1 ∧
        (truthy (get (Script.content f1) "id") = false ∨ has_timestamps (Script.content f1)).
Proof.
  split; [evaluated|].
  assert (Hin : "x.json" ∈ ["n.json"; "x.json"]) by (right; left).
  split; [exact Hin|].
  eapply (migrated_files_have_timestamps Examples.log_X Examples.clock ["n.json"; "x.json"]
            Examples.store_XN); [|exact Hin].
  evaluated.
Defined.

(** X21: Repair mends what Migrate wrote.  For an issue with a string
    identifier that lacks a timestamp entry and has events whose first and
    last carry timestamps, a live Migrate writes the record, whatever it
    took for [created_at]; a live Repair of that record then leaves
    [created_at] equal to the timestamp of the issue's first event and
    [updated_at] equal to the timestamp of its last.  The file's
    modification time is not the empty string. *)
Theorem repair_mends_migrated_record (events : list dict) (f : Script.file)
    (s : string) (e0 en : dict) (mt : string) :
  let issue := Script.content f in
  let issue_events := Script.events_of (VStr s) events in
  get issue "id" = VStr s →
  truthy (VStr s) = true →
  ¬ has_timestamps issue →
  truthy (VStr (Script.mtime f)) = true →
  head issue_events = Some e0 → last issue_events = Some en →
  truthy (get e0 "timestamp") = true → truthy (get en "timestamp") = true →
  ∃ issue1,
    Script.written (Migrate.migrate_issue events false f) = Some issue1 ∧
    let f1 := Script.mkFile issue1 mt in
    let issue2 := Script.record_after f1 (Fix.fix_issue_timestamps events false f1) in
    ∃ c u,
      issue2 !! "created_at" = Some c ∧ py_eq c (get e0 "timestamp") = true ∧
      issue2 !! "updated_at" = Some u ∧ py_eq u (get en "timestamp") = true.
Proof.
  cbv zeta. intros Hid Hs Hmiss Hmt Hhead Hlast Ht0 Htn.
  set (found := Migrate.find_timestamps_from_events (VStr s) events).
  set (c1 := if truthy found.1 then found.1 else VStr (Script.mtime f)).
  set (u1 := if truthy found.2 then found.2 else VStr (Script.mtime f)).
  assert (Hc1 : truthy c1 = true).
  { unfold c1. by destruct (truthy found.1) eqn:E. }
  assert (Hu1 : truthy u1 = true).
  { unfold u1. by destruct (truthy found.2) eqn:E. }
  assert (Hw : Script.written (Migrate.migrate_issue events false f)
               = Some (Script.set_timestamps c1 u1 (Script.content f))).
  { unfold Migrate.migrate_issue, Migrate.add_timestamps, Migrate.get_file_mtime_rfc3339.
    rewrite Hid, Hs, (not_has_timestamps _ Hmiss). simpl.
    fold found. unfold c1, u1. destruct found as [c0 u0]. simpl.
    by destruct (truthy c0). }
  exists (Script.set_timestamps c1 u1 (Script.content f)). split; [done|].
  unfold Script.record_after, Fix.fix_issue_timestamps, Fix.report. simpl.
  rewrite get_set_timestamps_id, Hid, Hs. simpl.
  rewrite (get_Some _ _ _ (set_timestamps_created _ _ _)).
  rewrite (get_Some _ _ _ (set_timestamps_updated _ _ _)).
  rewrite Hc1, Hu1, Hhead, Hlast. simpl. rewrite Ht0, Htn. simpl.
  destruct (py_eq c1 (get e0 "timestamp")) eqn:Ec; simpl;
    [destruct (py_eq u1 (get en "timestamp")) eqn:Eu; simpl|].
  - exists c1, u1. by rewrite set_timestamps_created, set_timestamps_updated.
  - exists (get e0 "timestamp"), (get en "timestamp").
    by rewrite set_timestamps_created, set_timestamps_updated, !py_eq_refl.
  - exists (get e0 "timestamp"), (get en "timestamp").
    by rewrite set_timestamps_created, set_timestamps_updated, !py_eq_refl.
Qed.

(** X21 on the record of [X] and the log as the tracker writes it: Migrate
    takes the modification time for [created_at], Repair puts the timestamp
    of the first event in its place. *)
Lemma repair_mends_migrated_record_witness :
  let migrated :=
    Script.set_timestamps (VStr Examples.t_file) (VStr Examples.t2)
      (Script.content Examples.file_bare) in
  let f1 := Script.mkFile migrated (Examples.clock "x.json") in
  Script.written (Migrate.migrate_issue Examples.log_X false Examples.file_bare) = Some migrated ∧
  Script.record_after f1 (Fix.fix_issue_timestamps Examples.log_X false f1) !! "created_at"
  = Some (VStr Examples.t0) ∧
  ∃ issue1,
    Script.written (Migrate.migrate_issue Examples.log_X false Examples.file_bare)
    = Some issue1 ∧
    ∃ c u,
      Script.record_after (Script.mkFile issue1 (Examples.clock "x.json"))
        (Fix.fix_issue_timestamps Examples.log_X false
           (Script.mkFile issue1 (Examples.clock "x.json"))) !! "created_at" = Some c ∧
      py_eq c (VStr Examples.t0) = true ∧
      Script.record_after (Script.mkFile issue1 (Examples.clock "x.json"))
        (Fix.fix_issue_timestamps Examples.log_X false
           (Script.mkFile issue1 (Examples.clock "x.json"))) !! "updated_at" = Some u ∧
      py_eq u (VStr Examples.t2) = true.
Proof.
  split; [evaluated|]. split; [evaluated|].
  assert (Hmiss : ¬ has_timestamps (Script.content Examples.file_bare)).
  { intros [[c Hc] _]. by vm_compute in Hc. }
  exact (repair_mends_migrated_record Examples.log_X Examples.file_bare "X"
    (Examples.logged "X" "issue_created" Examples.t0)
    (Examples.logged "X" "issue_closed" Examples.t2)
    (Examples.clock "x.json")
    eq_refl eq_refl Hmiss eq_refl ltac:(evaluated) ltac:(evaluated) eq_refl eq_refl).
Defined.

(** X22: what Repair never does.  Whenever [fix_issue_timestamps] writes a
    file, the run is not a dry run, the record has an identifier and both
    stored timestamps, not empty, the issue has events whose first and last
    carry timestamps, the stored pair differs from the timestamps of the
    first and the last event, and the record written is the old one with
    that pair. *)
Theorem repair_writes_only_to_correct (events : list dict) (dry_run : bool)
    (f : Script.file) (issue' : dict) :
  Script.written (Fix.fix_issue_timestamps events dry_run f) = Some issue' →
  let issue := Script.content f in
  let issue_events := Script.events_of (get issue "id") events in
  dry_run = false ∧
  truthy (get issue "id") = true ∧
  truthy (get issue "created_at") = true ∧
  truthy (get issue "updated_at") = true ∧
  ∃ e0 en,
    head issue_events = Some e0 ∧ last issue_events = Some en ∧
    truthy (get e0 "timestamp") = true ∧ truthy (get en "timestamp") = true ∧
    ¬ (py_eq (get issue "created_at") (get e0 "timestamp") = true ∧
       py_eq (get issue "updated_at") (get en "timestamp") = true) ∧
    issue' = Script.set_timestamps (get e0 "timestamp") (get en "timestamp") issue.
Proof.
  intros Hw. apply fix_issue_written in Hw
    as (Hdry & Hid & Hoc & Hou & e0 & en & Hhead & Hlast & Ht0 & Htn & Hne & ->).
  cbv zeta. repeat (split; [done|]). exists e0, en. repeat (split; [done|]).
  split; [|done]. intros [Hc Hu]. by rewrite Hc, Hu in Hne.
Qed.

(** X22 on the record of [X] whose entries hold the modification time. *)
Lemma repair_writes_only_to_correct_witness :
  let issue' :=
    Script.set_timestamps (VStr Examples.t0) (VStr Examples.t2)
      (Script.content Examples.file_both) in
  Script.written (Fix.fix_issue_timestamps Examples.log_X false Examples.file_both)
  = Some issue' ∧
  truthy (get (Script.content Examples.file_both) "created_at") = true ∧
  truthy (get (Script.content Examples.file_both) "updated_at") = true.
Proof.
  assert (Hw : Script.written
                 (Fix.fix_issue_timestamps Examples.log_X false Examples.file_both)
               = Some (Script.set_timestamps (VStr Examples.t0) (VStr Examples.t2)
                         (Script.content Examples.file_both))) by evaluated.
  split; [exact Hw|].
  destruct (repair_writes_only_to_correct Examples.log_X false Examples.file_both
              (Script.set_timestamps (VStr Examples.t0) (VStr Examples.t2)
                 (Script.content Examples.file_both)) Hw)
    as (_ & _ & Hc & Hu & _).
  split; [exact Hc|exact Hu].
Defined.



(** X24: a dry-run pass, in either mode and however it ends, leaves the
    issues directory exactly as it was. *)
Theorem dry_run_pass_leaves_directory (m : mode) (events : list dict)
    (clock : string → string) (issue_files : list string) (st : gmap string Script.file) :
  (reconcile m events true clock issue_files st).1.1 = st.
Proof. rewrite reconcile_unfold. apply dry_run_pass_changes_nothing. Qed.

